(** * AutoRules: the rule codec, the rule store and the rule applier

    A shallow embedding of [src/auto_rules.py]: the MDC codec
    ([convert_rules_to_mdc], [convert_mdc_to_rules]), the store operations
    built on whole-document read-modify-write ([load_all_rules],
    [save_rules_to_mdc], [add_rule], [update_rule], [delete_rule],
    [load_rules_by_tags]) and the rule applier of the specification.

    Python strings are sequences of Unicode code points; they are modelled
    as [list Z], one code point per element.  A rule is a Python dict whose
    keys may be absent; it is modelled as a record of [option] fields,
    [None] standing for an absent key. *)

From Stdlib Require Import String Ascii ZArith List Bool Lia.
Import ListNotations.
Local Open Scope list_scope.

(** ** Python strings *)

Definition str := list Z.

(** An ASCII literal as a Python string. *)
Definition lit (s : string) : str :=
  map (fun a => Z.of_nat (nat_of_ascii a)) (list_ascii_of_string s).

Definition nl : str := [10%Z].

Definition str_eqb (a b : str) : bool :=
  if list_eq_dec Z.eq_dec a b then true else false.

Definition opt_str_eqb (a b : option str) : bool :=
  match a, b with
  | Some x, Some y => str_eqb x y
  | None, None => true
  | _, _ => false
  end.

(** Python truthiness of a string and of an optional string. *)
Definition is_nil (s : str) : bool :=
  match s with [] => true | _ => false end.

Definition truthy (o : option str) : bool :=
  match o with Some s => negb (is_nil s) | None => false end.

(** [str.isspace] of one code point (the code points CPython 3 reports). *)
Definition is_space (c : Z) : bool :=
  ((9 <=? c) && (c <=? 13))%Z || ((28 <=? c) && (c <=? 32))%Z
  || (c =? 133)%Z || (c =? 160)%Z || (c =? 5760)%Z
  || ((8192 <=? c) && (c <=? 8202))%Z
  || (c =? 8232)%Z || (c =? 8233)%Z || (c =? 8239)%Z || (c =? 8287)%Z
  || (c =? 12288)%Z.

Fixpoint lstrip (s : str) : str :=
  match s with
  | [] => []
  | c :: s' => if is_space c then lstrip s' else s
  end.

Definition rstrip (s : str) : str := rev (lstrip (rev s)).

(** [str.strip()]. *)
Definition strip (s : str) : str := rstrip (lstrip s).

(** [s.startswith(p)]. *)
Fixpoint starts_with (p s : str) : bool :=
  match p, s with
  | [], _ => true
  | c :: p', d :: s' => (c =? d)%Z && starts_with p' s'
  | _ :: _, [] => false
  end.

(** [old in s]. *)
Fixpoint contains (old s : str) : bool :=
  starts_with old s || match s with [] => false | _ :: s' => contains old s' end.

(** [s.split('\n')]. *)
Fixpoint split_nl (s : str) : list str :=
  match s with
  | [] => [[]]
  | c :: s' =>
      if (c =? 10)%Z then [] :: split_nl s'
      else match split_nl s' with
           | [] => [[c]]
           | l :: ls => (c :: l) :: ls
           end
  end.

(** ['\n'.join(ls)]. *)
Fixpoint join_nl (ls : list str) : str :=
  match ls with
  | [] => []
  | [l] => l
  | l :: ls' => l ++ nl ++ join_nl ls'
  end.

(** [s.replace(old, new)] for a non-empty [old]: a left-to-right scan for
    non-overlapping occurrences; [skip] counts the characters of the
    current occurrence still to be dropped.  An empty [old] inserts [new]
    around every character, as Python does. *)
Fixpoint repl (old new : str) (skip : nat) (s : str) : str :=
  match s with
  | [] => []
  | c :: s' =>
      match skip with
      | S k => repl old new k s'
      | O => if starts_with old s
             then new ++ repl old new (pred (length old)) s'
             else c :: repl old new O s'
      end
  end.

Definition replace_all (old new s : str) : str :=
  match old with
  | [] => new ++ flat_map (fun c => c :: new) s
  | _ => repl old new O s
  end.

(** ** The document's fixed texts *)

(** ["# 자동 규칙 모음\n\n"] *)
Definition title : str :=
  lit "# " ++ [0xc790; 0xb3d9; 32; 0xaddc; 0xce59; 32; 0xbaa8; 0xc74c]%Z
  ++ nl ++ nl.

(** ["## "] *)
Definition hdr2 : str := lit "## ".

(** ["### 원본 코드"] *)
Definition orig_hdr : str :=
  lit "### " ++ [0xc6d0; 0xbcf8; 32; 0xcf54; 0xb4dc]%Z.

(** ["### 수정된 코드"] *)
Definition mod_hdr : str :=
  lit "### " ++ [0xc218; 0xc815; 0xb41c; 32; 0xcf54; 0xb4dc]%Z.

(** ["```"] *)
Definition fence : str := lit "```".

(** ["MDC에서 추출"] *)
Definition feedback_mdc : str :=
  lit "MDC" ++ [0xc5d0; 0xc11c; 32; 0xcd94; 0xcd9c]%Z.

(** ** Rules *)

Record Rule := mk_rule {
  r_id : option str;
  r_name : option str;
  r_description : option str;
  r_original_code : option str;
  r_modified_code : option str;
  r_feedback : option str;
  r_tags : option (list str);
  r_created_at : option str;
  r_updated_at : option str
}.

(** [rule.get(key, "")] *)
Definition get (o : option str) : str :=
  match o with Some s => s | None => [] end.

(** [rule.get("tags", [])] *)
Definition get_tags (r : Rule) : list str :=
  match r_tags r with Some ts => ts | None => [] end.

(** The values [datetime.now()] and [uuid.uuid4()] produce during one call:
    the compact stamp used in parsed ids, the ISO time and a fresh uuid. *)
Record env := mk_env { stamp : str; now_iso : str; fresh_uuid : str }.

(** ** [convert_rules_to_mdc] *)

Definition rule_block (r : Rule) : str :=
  hdr2 ++ get (r_name r) ++ nl ++ nl
  ++ get (r_description r) ++ nl ++ nl
  ++ orig_hdr ++ nl ++ nl
  ++ fence ++ nl ++ get (r_original_code r) ++ nl ++ fence ++ nl ++ nl
  ++ mod_hdr ++ nl ++ nl
  ++ fence ++ nl ++ get (r_modified_code r) ++ nl ++ fence ++ nl ++ nl.

Definition convert_rules_to_mdc (rules : list Rule) : str :=
  title ++ concat (map rule_block rules).

(** ** [convert_mdc_to_rules] *)

(** [re.split(r'(?=^## )', s, flags=re.MULTILINE)]: the string is cut at
    every position that starts a line and is followed by ["## "].  [bol]
    says whether the current position starts a line; the result is the
    piece under construction and the pieces after it. *)
Fixpoint split_hdr (bol : bool) (s : str) : str * list str :=
  match s with
  | [] => ([], [])
  | c :: s' =>
      let '(p, ps) := split_hdr (c =? 10)%Z s' in
      if bol && starts_with hdr2 s then ([], (c :: p) :: ps)
      else (c :: p, ps)
  end.

Definition re_split_sections (s : str) : list str :=
  let '(p, ps) := split_hdr true s in p :: ps.

(** The index loops of the parser run over [lines[i:]]; [i += 1] is [tl]
    (past the end both are empty, and every read is guarded by
    [i < len(lines)]). *)

(** [while i < len(lines) and not P(lines[i]): collect lines[i]; i += 1] *)
Fixpoint collect_until (P : str -> bool) (ls : list str) : list str * list str :=
  match ls with
  | [] => ([], [])
  | l :: ls' =>
      if P l then ([], ls)
      else let '(a, b) := collect_until P ls' in (l :: a, b)
  end.

(** [while i < len(lines) and not P(lines[i]): i += 1] *)
Fixpoint skip_until (P : str -> bool) (ls : list str) : list str :=
  match ls with
  | [] => []
  | l :: ls' => if P l then ls else skip_until P ls'
  end.

Definition is_fence (l : str) : bool := starts_with fence (strip l).
Definition starts_orig (l : str) : bool := starts_with orig_hdr l.
Definition starts_mod (l : str) : bool := starts_with mod_hdr l.

(** After a code sub-header: find the opening fence, skip it, collect the
    lines up to the closing fence.  Returns the code and [lines[i:]]. *)
Definition extract_code (ls : list str) : str * list str :=
  let '(code, rest) := collect_until is_fence (tl (skip_until is_fence ls)) in
  (join_nl code, rest).

(** The fields [rule_data] receives from the lines of one section: name,
    description, original code and modified code; [None] when the section
    is skipped for an empty name. *)
Definition section_fields (lines : list str) : option (str * str * str * str) :=
  match lines with
  | [] => None
  | l0 :: rest =>
      let name := strip (replace_all hdr2 [] l0) in
      if is_nil name then None else
      let '(desc_lines, r1) := collect_until starts_orig rest in
      let desc := strip (join_nl desc_lines) in
      let '(orig, r2) :=
        match r1 with
        | l :: r1' => if starts_orig l then extract_code r1' else ([], r1)
        | [] => ([], [])
        end in
      let r3 := skip_until starts_mod (tl r2) in
      let modi :=
        match r3 with
        | l :: r3' => if starts_mod l then fst (extract_code r3') else []
        | [] => []
        end in
      Some (name, desc, orig, modi)
  end.

Definition parse_section (e : env) (lines : list str) : option Rule :=
  match section_fields lines with
  | Some (name, desc, orig, modi) =>
      if negb (is_nil name) && (negb (is_nil orig) || negb (is_nil modi)) then
        Some (mk_rule
                (Some (replace_all (lit " ") (lit "_") name ++ lit "_" ++ stamp e))
                (Some name) (Some desc) (Some orig) (Some modi)
                (Some feedback_mdc) (Some []) (Some (now_iso e)) None)
      else None
  | None => None
  end.

Definition parse_piece (e : env) (section : str) : list Rule :=
  if is_nil (strip section) then []
  else match parse_section e (split_nl (strip section)) with
       | Some r => [r]
       | None => []
       end.

Definition convert_mdc_to_rules (e : env) (mdc_content : str) : list Rule :=
  if is_nil (strip mdc_content) then []
  else flat_map (parse_piece e) (tl (re_split_sections mdc_content)).

(** ** The rule store *)

(** The process state the store functions touch: whether [AUTO_RULES_ROOT]
    is set, the content of [.cursor/rules/auto_rules.mdc] ([None] when the
    file does not exist), whether the [try] block of [save_rules_to_mdc]
    succeeds ([writable]), and, when it fails, where it fails
    ([truncate_keep]): [None] when [os.makedirs] or [open(..., 'w')]
    raises, so the file is not touched; [Some k] when [open(..., 'w')] has
    truncated the file and [f.write] or the flush at [close] raises, so the
    file keeps the first [k] characters of the content that reached it
    ([0] for a [UnicodeEncodeError], raised before anything is written). *)
Record world := mk_world {
  root_set : bool; doc : option str; writable : bool; truncate_keep : option nat }.

Definition set_doc (w : world) (d : str) : world :=
  mk_world (root_set w) (Some d) (writable w) (truncate_keep w).

(** The messages of the [(bool, str)] results, by their f-string. *)
Inductive msg :=
| MsgNoRoot
| MsgNameRequired
| MsgDuplicate (name : str)
| MsgAdded (name : str)
| MsgSaveError
| MsgNeedNameOrId
| MsgNotFound (key : str)
| MsgUpdated (key : str)
| MsgDeleted (name : str).

Definition load_all_rules (e : env) (w : world) : list Rule :=
  if negb (root_set w) then []
  else match doc w with
       | None => []
       | Some s => convert_mdc_to_rules e s
       end.

Definition save_rules_to_mdc (rules : list Rule) (w : world) : bool * world :=
  if negb (root_set w) then (false, w)
  else
    let mdc_content := convert_rules_to_mdc rules in
    if writable w then (true, set_doc w mdc_content)
    else match truncate_keep w with
         | None => (false, w)
         | Some k => (false, set_doc w (firstn k mdc_content))
         end.

(** [rule["id"] = ...; rule["created_at"] = ...] *)
Definition with_id_created (r : Rule) (i c : option str) : Rule :=
  mk_rule i (r_name r) (r_description r) (r_original_code r)
    (r_modified_code r) (r_feedback r) (r_tags r) c (r_updated_at r).

(** [... ; rule["updated_at"] = ...] *)
Definition with_updated (r : Rule) (u : option str) : Rule :=
  mk_rule (r_id r) (r_name r) (r_description r) (r_original_code r)
    (r_modified_code r) (r_feedback r) (r_tags r) (r_created_at r) u.

Definition add_rule (e : env) (w : world) (rule : Rule) : (bool * msg) * world :=
  if negb (root_set w) then ((false, MsgNoRoot), w) else
  let rule_name := r_name rule in
  if negb (truthy rule_name) then ((false, MsgNameRequired), w) else
  let current_rules := load_all_rules e w in
  if existsb (fun ex => opt_str_eqb (r_name ex) rule_name) current_rules
  then ((false, MsgDuplicate (get rule_name)), w)
  else
    let rule' := with_id_created rule (Some (fresh_uuid e)) (Some (now_iso e)) in
    let '(ok, w') := save_rules_to_mdc (current_rules ++ [rule']) w in
    if ok then ((true, MsgAdded (get rule_name)), w')
    else ((false, MsgSaveError), w').

(** The match test of [update_rule]'s loop. *)
Definition update_matches (rule ex : Rule) : bool :=
  (truthy (r_id rule) && opt_str_eqb (r_id ex) (r_id rule))
  || (truthy (r_name rule) && opt_str_eqb (r_name ex) (r_name rule)).

(** The record [current_rules[i] = rule] stores for the matched [ex]. *)
Definition update_merge (e : env) (rule ex : Rule) : Rule :=
  let original_id := if truthy (r_id ex) then r_id ex else Some (fresh_uuid e) in
  let original_created_at :=
    if truthy (r_created_at ex) then r_created_at ex else Some (now_iso e) in
  with_updated (with_id_created rule original_id original_created_at)
    (Some (now_iso e)).

(** The [for i, existing_rule in enumerate(current_rules)] loop: [None] when
    nothing matched ([updated] stays false). *)
Fixpoint update_in (e : env) (rule : Rule) (rs : list Rule) : option (list Rule) :=
  match rs with
  | [] => None
  | ex :: rs' =>
      if update_matches rule ex then Some (update_merge e rule ex :: rs')
      else option_map (cons ex) (update_in e rule rs')
  end.

Definition update_rule (e : env) (w : world) (rule : Rule) : (bool * msg) * world :=
  if negb (root_set w) then ((false, MsgNoRoot), w) else
  let rule_name := r_name rule in
  let rule_id := r_id rule in
  if negb (truthy rule_name) && negb (truthy rule_id)
  then ((false, MsgNeedNameOrId), w) else
  let key := if truthy rule_name then get rule_name else get rule_id in
  match update_in e rule (load_all_rules e w) with
  | None => ((false, MsgNotFound key), w)
  | Some current_rules =>
      let '(ok, w') := save_rules_to_mdc current_rules w in
      if ok then ((true, MsgUpdated key), w')
      else ((false, MsgSaveError), w')
  end.

Definition delete_rule (e : env) (w : world) (rule_name : str) : (bool * msg) * world :=
  if negb (root_set w) then ((false, MsgNoRoot), w) else
  let current_rules := load_all_rules e w in
  let filtered_rules :=
    filter (fun r => negb (opt_str_eqb (r_name r) (Some rule_name))) current_rules in
  if Nat.eqb (length filtered_rules) (length current_rules)
  then ((false, MsgNotFound rule_name), w)
  else
    let '(ok, w') := save_rules_to_mdc filtered_rules w in
    if ok then ((true, MsgDeleted rule_name), w')
    else ((false, MsgSaveError), w').

(** [any(tag in rule_tags for tag in tags)] *)
Definition has_any_tag (tags : list str) (r : Rule) : bool :=
  existsb (fun t => existsb (str_eqb t) (get_tags r)) tags.

Definition load_rules_by_tags (e : env) (w : world) (tags : list str) : list Rule :=
  let all_rules := load_all_rules e w in
  match tags with
  | [] => all_rules
  | _ => filter (has_any_tag tags) all_rules
  end.

(** ** The rule applier *)

(** Modelled from the spec: the RuleApplier [apply(code, tags?)] of
    section 4.3, which the Python file does not contain.  The candidates
    are [filterByTags(tags)] ([load_rules_by_tags]), or all rules when no
    tags are given; each candidate whose [original_code] is non-empty and
    occurs in the current result replaces every occurrence of it by its
    [modified_code] and has its name appended to [appliedRuleNames]. *)
Definition apply_step (acc : str * list str) (r : Rule) : str * list str :=
  let '(result, applied) := acc in
  let o := get (r_original_code r) in
  if negb (is_nil o) && contains o result
  then (replace_all o (get (r_modified_code r)) result, applied ++ [get (r_name r)])
  else (result, applied).

Definition apply_seq (rules : list Rule) (code : str) : str * list str :=
  fold_left apply_step rules (code, []).

Definition apply_rules_to_code (e : env) (w : world) (code : str)
    (tags : option (list str)) : str * list str :=
  let candidates :=
    match tags with
    | None => load_all_rules e w
    | Some ts => load_rules_by_tags e w ts
    end in
  apply_seq candidates code.

(** ** The remaining functions of the module *)


Definition extract_rules_from_mdc (e : env) (mdc_content : str) : list Rule :=
  convert_mdc_to_rules e mdc_content.

(** The strings the MCP tools return, by their f-string. *)
Inductive tool_out :=
| AddToolOk (message : msg) (total : nat)
| AddToolFail (message : msg)
| ExtractNone
| ExtractDone (extracted added existing : nat)
| DeleteToolOk (message : msg) (remaining : nat)
| DeleteToolFail (message : msg).




(** The [for rule in rules] loop of [mcp_auto_rules_extract_cursor_rules],
    threading the store and the two counters. *)
Fixpoint extract_loop (e : env) (current_rule_names : list str) (rules : list Rule)
    (w : world) (new_rules_count conflicts_count : nat) : (nat * nat) * world :=
  match rules with
  | [] => ((new_rules_count, conflicts_count), w)
  | rule :: rest =>
      let rule_name := r_name rule in
      if negb (truthy rule_name)
      then extract_loop e current_rule_names rest w new_rules_count conflicts_count
      else if existsb (str_eqb (get rule_name)) current_rule_names
      then extract_loop e current_rule_names rest w new_rules_count (S conflicts_count)
      else
        let '((success, _), w') := add_rule e w rule in
        extract_loop e current_rule_names rest w'
          (if success then S new_rules_count else new_rules_count) conflicts_count
  end.

Definition mcp_auto_rules_extract_cursor_rules (e : env) (w : world)
    (rules_content : str) : tool_out * world :=
  let rules := extract_rules_from_mdc e rules_content in
  match rules with
  | [] => (ExtractNone, w)
  | _ =>
      let current_rules := load_all_rules e w in
      let current_rule_names :=
        flat_map (fun r => if truthy (r_name r) then [get (r_name r)] else [])
          current_rules in
      let '((new_rules_count, conflicts_count), w') :=
        extract_loop e current_rule_names rules w 0 0 in
      (ExtractDone (length rules) new_rules_count conflicts_count, w')
  end.


(** The store effect of [main()]: the loaded rules are saved back when the
    document does not exist or some rule was loaded.  Its later read of
    [.cursor/rules/autorules.mdc] calls [extract_cursor_rules], a name the
    module does not define; the [NameError] is caught by the surrounding
    [try], so that step leaves the store as it is. *)
Definition main_startup (e : env) (w : world) : world :=
  let rules := load_all_rules e w in
  if match doc w with None => true | Some _ => false end
     || match rules with [] => false | _ => true end
  then snd (save_rules_to_mdc rules w)
  else w.

(** ** Conditions on the texts of a rule (used by the codec theorems) *)

(** A line that does not open a level-2 section: it does not start with
    ["## "]. *)
Definition not_hdr_line (l : str) : bool := negb (starts_with hdr2 l).

(** A name the header line carries back: non-empty, one line, no ["## "]
    inside, no surrounding whitespace. *)
Definition name_ok (s : str) : bool :=
  negb (is_nil s) && negb (contains nl s) && negb (contains hdr2 s)
  && str_eqb (strip s) s.

(** A description: no surrounding whitespace, and no line of it starts a
    section or the original-code sub-header. *)
Definition desc_ok (s : str) : bool :=
  forallb (fun l => not_hdr_line l && negb (starts_orig l)) (split_nl s)
  && str_eqb (strip s) s.

(** A code snippet: no line of it starts a section or is a fence line. *)
Definition code_ok (s : str) : bool :=
  forallb (fun l => not_hdr_line l && negb (is_fence l)) (split_nl s).

Definition rule_ok (r : Rule) : bool :=
  name_ok (get (r_name r)) && desc_ok (get (r_description r))
  && code_ok (get (r_original_code r)) && code_ok (get (r_modified_code r))
  && (negb (is_nil (get (r_original_code r)))
      || negb (is_nil (get (r_modified_code r)))).

(** The content fields of a rule, the ones the document carries. *)
Definition content (r : Rule) : str * str * str * str :=
  (get (r_name r), get (r_description r), get (r_original_code r),
   get (r_modified_code r)).

(** A section whose modified-code sub-header has no fenced block. *)
Definition block_no_mod_fence (name desc orig : str) : str :=
  hdr2 ++ name ++ nl ++ nl ++ desc ++ nl ++ nl
  ++ orig_hdr ++ nl ++ nl
  ++ fence ++ nl ++ orig ++ nl ++ fence ++ nl ++ nl
  ++ mod_hdr ++ nl ++ nl.

(** A section with no fenced block between the original-code sub-header
    and the modified-code sub-header ([between] are the lines there). *)
Definition block_no_orig_fence (name desc between modi : str) : str :=
  hdr2 ++ name ++ nl ++ nl ++ desc ++ nl ++ nl
  ++ orig_hdr ++ nl ++ between ++ nl
  ++ mod_hdr ++ nl ++ nl
  ++ fence ++ nl ++ modi ++ nl ++ fence ++ nl ++ nl.

(** The position-wise form of "no line starts with ["## "]" the header
    split needs: at every line start of [s] the rest neither starts with
    ["## "] nor is a proper start of it.  [bol_after] is whether the end
    of [s] starts a line. *)
Fixpoint hdr_free (bol : bool) (s : str) : bool :=
  match s with
  | [] => true
  | c :: s' =>
      negb (bol && (starts_with hdr2 s || starts_with s hdr2))
      && hdr_free (c =? 10)%Z s'
  end.

Fixpoint bol_after (bol : bool) (s : str) : bool :=
  match s with
  | [] => bol
  | c :: s' => bol_after (c =? 10)%Z s'
  end.

(** ** Sample inputs *)

Module Samples.

(** One call's clock and uuid: [strftime] stamp, [isoformat()], [uuid4()]. *)
Definition e0 : env := mk_env (lit "20260101") (lit "T") (lit "U").

(** A request dict with the given keys of [name], [original_code],
    [modified_code] present. *)
Definition req (n o m : option str) : Rule :=
  mk_rule None n None o m None None None None.

Definition rA : Rule :=
  mk_rule None (Some (lit "a")) (Some (lit "d")) (Some (lit "x")) (Some (lit "y"))
    None None None None.

(** The record [convert_mdc_to_rules] returns for the section of [rA]. *)
Definition rA_loaded : Rule :=
  mk_rule (Some (lit "a_20260101")) (Some (lit "a")) (Some (lit "d"))
    (Some (lit "x")) (Some (lit "y")) (Some feedback_mdc) (Some [])
    (Some (lit "T")) None.

(** A root with a writable document holding [rA]. *)
Definition wA : world := mk_world true (Some (convert_rules_to_mdc [rA])) true None.

(** A document with two sections of the same name. *)
Definition wAA : world := mk_world true (Some (convert_rules_to_mdc [rA; rA])) true None.

(** A root with no document yet. *)
Definition w_empty : world := mk_world true None true None.

Definition rule_foo : Rule := req (Some (lit "A")) (Some (lit "foo")) (Some (lit "bar")).
Definition rule_bar : Rule := req (Some (lit "B")) (Some (lit "bar")) (Some (lit "baz")).

(** The store after [add_rule(A)] then [add_rule(B)] on an empty root. *)
Definition w_AB : world :=
  snd (add_rule e0 (snd (add_rule e0 w_empty rule_foo)) rule_bar).

(** An update request carrying only the id of the loaded [rA]. *)
Definition req_id : Rule :=
  mk_rule (Some (lit "a_20260101")) None None None None None None None None.

(** An original snippet holding a Markdown fence line. *)
Definition r_fence : Rule :=
  mk_rule None (Some (lit "a")) (Some (lit "d"))
    (Some (lit "p" ++ nl ++ fence ++ nl ++ lit "q")) (Some (lit "y"))
    None None None None.

End Samples.

(** ** Lemmas on the string operations *)

Module StrFacts.

Lemma lstrip_app (s b : str) :
  lstrip (s ++ b) = if forallb is_space s then lstrip b else lstrip s ++ b.
Proof.
  induction s as [|c s IH]; simpl; [reflexivity|].
  destruct (is_space c); simpl; [exact IH | reflexivity].
Qed.

Lemma lstrip_spaces (a s : str) :
  forallb is_space a = true -> lstrip (a ++ s) = lstrip s.
Proof. intros H. rewrite lstrip_app, H. reflexivity. Qed.

Lemma rstrip_spaces (s b : str) :
  forallb is_space b = true -> rstrip (s ++ b) = rstrip s.
Proof.
  intros H. unfold rstrip. rewrite rev_app_distr, lstrip_spaces; [reflexivity|].
  rewrite forallb_forall in *. intros x Hx. apply H, in_rev, Hx.
Qed.

Lemma lstrip_all_spaces (s : str) : forallb is_space s = true -> lstrip s = [].
Proof.
  induction s as [|c s IH]; simpl; [reflexivity|].
  intros H. apply andb_true_iff in H as [-> H]. exact (IH H).
Qed.

Lemma strip_around (a s b : str) :
  forallb is_space a = true -> forallb is_space b = true ->
  strip (a ++ s ++ b) = strip s.
Proof.
  intros Ha Hb. unfold strip. rewrite lstrip_spaces by exact Ha.
  rewrite lstrip_app. destruct (forallb is_space s) eqn:Hs.
  - rewrite (lstrip_all_spaces b Hb), (lstrip_all_spaces s Hs). reflexivity.
  - apply rstrip_spaces, Hb.
Qed.

Lemma lstrip_nil_spaces (s : str) : lstrip s = [] -> forallb is_space s = true.
Proof.
  induction s as [|c s IH]; simpl; [reflexivity|].
  destruct (is_space c); simpl; [exact IH | discriminate].
Qed.

(** A string with a non-space first character keeps it under [lstrip]. *)
Lemma lstrip_keep (c : Z) (s : str) :
  is_space c = false -> lstrip (c :: s) = c :: s.
Proof. intros H. simpl. rewrite H. reflexivity. Qed.

(** [rstrip] of a string ending in a non-space character followed by
    whitespace drops exactly the whitespace. *)
Lemma rstrip_last (s b : str) (c : Z) :
  is_space c = false -> forallb is_space b = true ->
  rstrip (s ++ c :: b) = s ++ [c].
Proof.
  intros Hc Hb. replace (s ++ c :: b) with ((s ++ [c]) ++ b)
    by (rewrite <- app_assoc; reflexivity).
  rewrite rstrip_spaces by exact Hb. unfold rstrip.
  rewrite rev_app_distr. simpl. rewrite Hc. simpl. rewrite rev_involutive. reflexivity.
Qed.

Lemma strip_nonempty (c : Z) (s : str) :
  is_space c = false -> In c s -> is_nil (strip s) = false.
Proof.
  intros Hc Hin. unfold strip, rstrip.
  destruct (lstrip (rev (lstrip s))) as [|z s0] eqn:E.
  2:{ simpl. destruct (rev s0); reflexivity. }
  apply lstrip_nil_spaces in E.
  exfalso. revert Hin E. induction s as [|d s IH]; simpl; [tauto|].
  destruct (is_space d) eqn:Hd.
  - intros [-> | Hin]; [congruence|]. exact (IH Hin).
  - intros _ E. simpl in E. rewrite forallb_app in E.
    apply andb_true_iff in E as [_ E]. simpl in E. rewrite Hd in E.
    discriminate.
Qed.

(** [split('\n')] never returns an empty list. *)
Lemma split_nl_cons (s : str) : exists l ls, split_nl s = l :: ls.
Proof.
  induction s as [|c s IH]; simpl; [eauto|].
  destruct (c =? 10)%Z; [eauto|].
  destruct IH as (l & ls & ->). eauto.
Qed.

Lemma split_nl_app (a b : str) :
  split_nl (a ++ 10%Z :: b) = split_nl a ++ split_nl b.
Proof.
  induction a as [|c a IH]; simpl; [reflexivity|].
  destruct (c =? 10)%Z; [rewrite IH; reflexivity|].
  rewrite IH. destruct (split_nl_cons a) as (l & ls & ->). reflexivity.
Qed.

Lemma split_nl_line (s : str) :
  contains nl s = false -> split_nl s = [s].
Proof.
  unfold nl. induction s as [|c s IH]; [reflexivity|].
  cbn [contains starts_with split_nl]. intros H.
  apply orb_false_iff in H as [H1 H2]. rewrite andb_true_r in H1.
  rewrite Z.eqb_sym, H1, IH by exact H2. reflexivity.
Qed.

Lemma join_nl_app (a b : list str) :
  a <> [] -> b <> [] -> join_nl (a ++ b) = join_nl a ++ nl ++ join_nl b.
Proof.
  intros Ha Hb. induction a as [|x a IH]; [congruence|].
  destruct a as [|y a].
  - destruct b as [|z b]; [congruence|reflexivity].
  - specialize (IH ltac:(discriminate)).
    change ((x :: y :: a) ++ b) with (x :: (y :: a ++ b)).
    change (join_nl (x :: y :: a ++ b)) with (x ++ nl ++ join_nl (y :: a ++ b)).
    change ((y :: a) ++ b) with (y :: a ++ b) in IH. rewrite IH.
    change (join_nl (x :: y :: a)) with (x ++ nl ++ join_nl (y :: a)).
    rewrite <- !app_assoc. reflexivity.
Qed.

Lemma join_split (s : str) : join_nl (split_nl s) = s.
Proof.
  induction s as [|c s IH]; [reflexivity|].
  destruct (split_nl_cons s) as (l & ls & E).
  cbn [split_nl]. rewrite E in *.
  destruct (Z.eqb_spec c 10) as [->|Hc].
  - change (join_nl ([] :: l :: ls)) with ([] ++ nl ++ join_nl (l :: ls)).
    rewrite IH. reflexivity.
  - destruct ls as [|l' ls].
    + simpl in IH |- *. rewrite IH. reflexivity.
    + change (join_nl ((c :: l) :: l' :: ls))
        with ((c :: l) ++ nl ++ join_nl (l' :: ls)).
      change (join_nl (l :: l' :: ls)) with (l ++ nl ++ join_nl (l' :: ls)) in IH.
      rewrite <- IH. reflexivity.
Qed.

End StrFacts.

Module SplitFacts.
Import StrFacts.

Lemma starts_with_app (p s t : str) :
  starts_with p s = true -> starts_with p (s ++ t) = true.
Proof.
  revert s. induction p as [|a p IH]; intros [|d s]; simpl; try easy.
  intros H. apply andb_true_iff in H as [H1 H2]. rewrite H1. simpl. auto.
Qed.

Lemma starts_with_app_inv (p s t : str) :
  starts_with p (s ++ t) = true ->
  starts_with p s = true \/ starts_with s p = true.
Proof.
  revert s. induction p as [|a p IH]; intros [|d s]; simpl; auto.
  intros H. apply andb_true_iff in H as [H1 H2].
  apply Z.eqb_eq in H1. subst d. rewrite Z.eqb_refl. simpl. auto.
Qed.

Lemma starts_with_app_l (s t p : str) :
  starts_with (s ++ t) p = true -> starts_with s p = true.
Proof.
  revert p. induction s as [|a s IH]; intros [|d p]; simpl; try easy.
  intros H. apply andb_true_iff in H as [H1 H2]. rewrite H1. simpl. auto.
Qed.

Lemma starts_with_in (x p : str) (y : Z) :
  starts_with x p = true -> In y x -> In y p.
Proof.
  revert p. induction x as [|a x IH]; intros [|d p]; simpl; try easy.
  intros H. apply andb_true_iff in H as [H1 H2]. apply Z.eqb_eq in H1.
  subst d. intros [->|Hy]; [left; reflexivity | right; eauto].
Qed.

(** A prefix with no newline read across a line end is read within the
    line. *)
Lemma starts_with_line (p u r : str) :
  (forall x, In x u -> x <> 10%Z) -> ~ In 10%Z p ->
  starts_with p (u ++ 10%Z :: r) = true -> starts_with p u = true.
Proof.
  revert u. induction p as [|a p IH]; intros [|d u] Hu Hp; simpl; try easy.
  - intros H. apply andb_true_iff in H as [H _]. apply Z.eqb_eq in H.
    subst a. simpl in Hp. tauto.
  - intros H. apply andb_true_iff in H as [H1 H2]. rewrite H1. simpl.
    apply IH; [intros x Hx; apply Hu; right; exact Hx | simpl in Hp; tauto | exact H2].
Qed.

Lemma split_nl_first (s l : str) (ls : list str) :
  split_nl s = l :: ls ->
  (forall x, In x l -> x <> 10%Z) /\ exists r, s ++ [10%Z] = l ++ 10%Z :: r.
Proof.
  revert l ls. induction s as [|c s IH]; intros l ls E.
  - simpl in E. injection E as <- <-. split; [easy|]. exists []. reflexivity.
  - destruct (split_nl_cons s) as (l' & ls' & E').
    cbn [split_nl] in E. rewrite E' in E.
    destruct (Z.eqb_spec c 10) as [->|Hc].
    + injection E as <- <-. split; [easy|]. exists (s ++ [10%Z]). reflexivity.
    + injection E as <- <-. destruct (IH _ _ E') as [Hl [r Hr]].
      split.
      * intros x [<-|Hx]; [exact Hc | exact (Hl x Hx)].
      * exists r. simpl. rewrite Hr. reflexivity.
Qed.

Lemma hdr_free_app (b : bool) (s t : str) :
  hdr_free b s = true -> hdr_free (bol_after b s) t = true ->
  hdr_free b (s ++ t) = true.
Proof.
  revert b. induction s as [|c s IH]; intros b Hs Ht; [exact Ht|].
  cbn [hdr_free bol_after app] in *.
  apply andb_true_iff in Hs as [H1 H2].
  rewrite (IH _ H2 Ht), andb_true_r.
  destruct b; [|reflexivity]. cbn [andb] in *.
  apply negb_true_iff. apply negb_true_iff, orb_false_iff in H1 as [H1 H3].
  apply orb_false_iff. split.
  - destruct (starts_with hdr2 (c :: s ++ t)) eqn:E; [|reflexivity].
    change (c :: s ++ t) with ((c :: s) ++ t) in E.
    apply starts_with_app_inv in E as [E|E]; congruence.
  - destruct (starts_with (c :: s ++ t) hdr2) eqn:E; [|reflexivity].
    change (c :: s ++ t) with ((c :: s) ++ t) in E.
    apply starts_with_app_l in E. congruence.
Qed.

Lemma bol_after_app (b : bool) (s t : str) :
  bol_after b (s ++ t) = bol_after (bol_after b s) t.
Proof. revert b. induction s as [|c s IH]; intros b; simpl; auto. Qed.

Lemma bol_after_nl (b : bool) (s : str) : bol_after b (s ++ nl) = true.
Proof. rewrite bol_after_app. reflexivity. Qed.

Lemma split_hdr_app (b : bool) (s t : str) :
  hdr_free b s = true ->
  split_hdr b (s ++ t) =
  let '(p, ps) := split_hdr (bol_after b s) t in (s ++ p, ps).
Proof.
  revert b. induction s as [|c s IH]; intros b Hs.
  - simpl. destruct (split_hdr b t). reflexivity.
  - cbn [hdr_free] in Hs. apply andb_true_iff in Hs as [H1 H2].
    cbn [app split_hdr bol_after]. rewrite (IH _ H2).
    destruct (split_hdr (bol_after (c =? 10)%Z s) t) as [p ps].
    destruct b; [|reflexivity]. cbn [andb] in H1 |- *.
    apply negb_true_iff, orb_false_iff in H1 as [H1 H3].
    destruct (starts_with hdr2 (c :: s ++ t)) eqn:E; [|reflexivity].
    change (c :: s ++ t) with ((c :: s) ++ t) in E.
    apply starts_with_app_inv in E as [E|E]; congruence.
Qed.

(** A text without newline, read after a line start has passed. *)
Lemma hdr_free_line (s : str) :
  contains nl s = false -> hdr_free false s = true /\ bol_after false s = false.
Proof.
  unfold nl. induction s as [|c s IH]; [auto|].
  cbn [contains starts_with hdr_free bol_after]. intros H.
  apply orb_false_iff in H as [H1 H2]. rewrite andb_true_r in H1.
  rewrite Z.eqb_sym, H1. exact (IH H2).
Qed.

(** A text none of whose lines starts with ["## "], followed by a newline. *)
Lemma hdr_free_lines (s : str) :
  forallb not_hdr_line (split_nl s) = true -> hdr_free true (s ++ nl) = true.
Proof.
  cut ((forallb not_hdr_line (split_nl s) = true -> hdr_free true (s ++ nl) = true)
       /\ (forallb not_hdr_line (tl (split_nl s)) = true ->
           hdr_free false (s ++ nl) = true)); [tauto|].
  induction s as [|c s [IH1 IH2]]; [split; reflexivity|].
  destruct (split_nl_cons s) as (l & ls & E).
  cbn [split_nl]. rewrite E in *. cbn [tl] in *.
  destruct (Z.eqb_spec c 10) as [->|Hc].
  - assert (A1 : starts_with hdr2 (10%Z :: s ++ nl) = false) by reflexivity.
    assert (A2 : starts_with (10%Z :: s ++ nl) hdr2 = false) by reflexivity.
    cbn [app hdr_free]. rewrite A1, A2, Z.eqb_refl. cbn [andb orb negb].
    split; intros H; apply IH1; exact H.
  - cbn [app hdr_free]. rewrite (proj2 (Z.eqb_neq c 10) Hc).
    split; intros H.
    + cbn [forallb] in H. apply andb_true_iff in H as [Hl Hls].
      rewrite (IH2 Hls), andb_true_r. cbn [andb].
      apply negb_true_iff, orb_false_iff. split.
      * destruct (split_nl_first s l ls E) as [Hl0 [r Hr]].
        unfold nl. rewrite Hr. unfold not_hdr_line in Hl.
        destruct (starts_with hdr2 (c :: l ++ 10%Z :: r)) eqn:S; [|reflexivity].
        change (c :: l ++ 10%Z :: r) with ((c :: l) ++ 10%Z :: r) in S.
        apply starts_with_line in S.
        -- rewrite S in Hl. discriminate.
        -- intros x [<-|Hx]; [exact Hc | exact (Hl0 x Hx)].
        -- simpl. intuition discriminate.
      * destruct (starts_with (c :: s ++ nl) hdr2) eqn:S; [|reflexivity].
        assert (In 10%Z hdr2) as Hin.
        { apply (starts_with_in _ _ _ S). right. apply in_or_app. right. left. reflexivity. }
        simpl in Hin. intuition discriminate.
    + exact (IH2 H).
Qed.

End SplitFacts.

Module ParseFacts.
Import StrFacts SplitFacts.

Lemma split_nl_lines (s l : str) : In l (split_nl s) -> ~ In 10%Z l.
Proof.
  revert l. induction s as [|c s IH]; intros l.
  - simpl. intros [<-|[]]. simpl. tauto.
  - destruct (split_nl_cons s) as (l' & ls & E).
    cbn [split_nl]. rewrite E in *.
    destruct (Z.eqb_spec c 10) as [->|Hc].
    + intros [<-|Hin]; [simpl; tauto | exact (IH l Hin)].
    + intros [<-|Hin].
      * intros [Hx|Hx]; [congruence|]. apply (IH l'); [left; reflexivity | exact Hx].
      * apply IH. right. exact Hin.
Qed.

Lemma contains_nl_not_in (s : str) : ~ In 10%Z s -> contains nl s = false.
Proof.
  unfold nl. induction s as [|c s IH]; [reflexivity|].
  intros H. cbn [contains starts_with]. rewrite andb_true_r.
  apply orb_false_iff. split.
  - apply Z.eqb_neq. intros <-. apply H. left. reflexivity.
  - apply IH. intros Hx. apply H. right. exact Hx.
Qed.

Lemma contains_nl_in (s : str) : contains nl s = false -> ~ In 10%Z s.
Proof.
  unfold nl. induction s as [|c s IH]; [simpl; tauto|].
  cbn [contains starts_with]. rewrite andb_true_r. intros H.
  apply orb_false_iff in H as [H1 H2]. apply Z.eqb_neq in H1.
  intros [E|E]; [congruence | exact (IH H2 E)].
Qed.

Lemma split_join_lines (L : list str) :
  L <> [] -> (forall l, In l L -> ~ In 10%Z l) -> split_nl (join_nl L) = L.
Proof.
  induction L as [|x L IH]; [congruence|]. intros _ H.
  destruct L as [|y L].
  - apply split_nl_line, contains_nl_not_in, H. left. reflexivity.
  - change (join_nl (x :: y :: L)) with (x ++ 10%Z :: join_nl (y :: L)).
    rewrite split_nl_app, IH.
    + rewrite split_nl_line; [reflexivity|].
      apply contains_nl_not_in, H. left. reflexivity.
    + discriminate.
    + intros l Hl. apply H. right. exact Hl.
Qed.

(** The shape every section the codec handles has: a header line, the
    other lines, and the two newlines [convert_rules_to_mdc] ends it with. *)
Definition section_text (name : str) (L : list str) : str :=
  join_nl ((hdr2 ++ name) :: L) ++ nl ++ nl.

(** Its lines: no line break inside a line, no line starting a section,
    and a last line ending in a non-space character. *)
Definition lines_ok (L : list str) : Prop :=
  L <> [] /\ (forall l, In l L -> ~ In 10%Z l) /\
  forallb not_hdr_line L = true /\
  join_nl L <> [] /\ is_space (last (join_nl L) 0%Z) = false.

Definition good_block (b : str) : Prop :=
  exists s', b = 35%Z :: s' /\ starts_with hdr2 b = true /\
             hdr_free false s' = true /\ bol_after false s' = true.

Lemma section_good (name : str) (L : list str) :
  contains nl name = false -> lines_ok L -> good_block (section_text name L).
Proof.
  intros Hn (Hne & Hnl & Hok & _).
  destruct L as [|y L]; [congruence|].
  unfold section_text.
  change (join_nl ((hdr2 ++ name) :: y :: L))
    with ((hdr2 ++ name) ++ nl ++ join_nl (y :: L)).
  set (J := join_nl (y :: L)).
  exists ((lit "# " ++ name) ++ nl ++ J ++ nl ++ nl). split; [|split; [|split]].
  - unfold hdr2. rewrite <- !app_assoc. reflexivity.
  - apply starts_with_app. reflexivity.
  - destruct (hdr_free_line name Hn) as [H1 H2].
    apply hdr_free_app.
    + apply hdr_free_app; [reflexivity|]. exact H1.
    + rewrite bol_after_app. change (bol_after false (lit "# ")) with false.
      rewrite H2.
      change (hdr_free false (nl ++ J ++ nl ++ nl) = true).
      apply (hdr_free_app false nl); [reflexivity|].
      change (bol_after false nl) with true.
      rewrite app_assoc.
      apply hdr_free_app.
      * apply hdr_free_lines. unfold J.
        rewrite split_join_lines; [exact Hok | discriminate | exact Hnl].
      * rewrite bol_after_nl. reflexivity.
  - rewrite !bol_after_app. reflexivity.
Qed.

Lemma split_hdr_blocks (bs : list str) :
  Forall good_block bs -> split_hdr true (concat bs) = ([], bs).
Proof.
  induction 1 as [|b bs Hb Hbs IH]; [reflexivity|].
  destruct Hb as (s' & -> & Hs & Hf & Ha).
  cbn [concat app split_hdr]. rewrite (split_hdr_app false s' _ Hf), Ha, IH.
  rewrite app_nil_r.
  replace (starts_with hdr2 (35%Z :: s' ++ concat bs)) with true.
  - reflexivity.
  - symmetry. apply (starts_with_app _ (35%Z :: s') (concat bs)) in Hs. exact Hs.
Qed.

Lemma convert_blocks (e : env) (bs : list str) :
  Forall good_block bs ->
  convert_mdc_to_rules e (title ++ concat bs) = flat_map (parse_piece e) bs.
Proof.
  intros Hbs. unfold convert_mdc_to_rules.
  rewrite (strip_nonempty 35%Z); [|reflexivity|left; reflexivity].
  unfold re_split_sections.
  rewrite (split_hdr_app true title _ ltac:(reflexivity)).
  change (bol_after true title) with true.
  rewrite (split_hdr_blocks bs Hbs). reflexivity.
Qed.

Lemma join_cons_cons_0 (x y : str) (ys : list str) :
  join_nl (x :: y :: ys) = x ++ nl ++ join_nl (y :: ys).
Proof. reflexivity. Qed.

Lemma strip_hdr_text (x y : str) (c : Z) :
  is_space c = false ->
  strip ((35%Z :: x) ++ y ++ [c] ++ nl ++ nl) = (35%Z :: x) ++ y ++ [c].
Proof.
  intros Hc. unfold strip. cbn [app]. rewrite lstrip_keep by reflexivity.
  change (rstrip (35%Z :: x ++ y ++ c :: nl ++ nl) = 35%Z :: x ++ y ++ [c]).
  replace (35%Z :: x ++ y ++ c :: nl ++ nl)
    with (((35%Z :: x) ++ y) ++ c :: [10%Z; 10%Z])
    by (rewrite <- !app_assoc; reflexivity).
  rewrite rstrip_last by (exact Hc || reflexivity).
  rewrite <- !app_assoc. reflexivity.
Qed.

Lemma strip_section_text (name : str) (L : list str) :
  lines_ok L -> strip (join_nl ((hdr2 ++ name) :: L) ++ nl ++ nl)
                = join_nl ((hdr2 ++ name) :: L).
Proof.
  intros (Hne & _ & _ & Hj & Hc).
  destruct L as [|l0 L]; [congruence|].
  rewrite join_cons_cons_0.
  rewrite (app_removelast_last 0%Z Hj).
  set (y := removelast (join_nl (l0 :: L))).
  set (c := last (join_nl (l0 :: L)) 0%Z) in *.
  replace (((hdr2 ++ name) ++ nl ++ y ++ [c]) ++ nl ++ nl)
    with ((35%Z :: lit "# " ++ name) ++ (nl ++ y) ++ [c] ++ nl ++ nl)
    by (rewrite <- !app_assoc; reflexivity).
  rewrite strip_hdr_text by exact Hc.
  rewrite <- !app_assoc. reflexivity.
Qed.

Lemma parse_piece_section (e : env) (name : str) (L : list str) :
  contains nl name = false -> lines_ok L ->
  parse_piece e (section_text name L) = match parse_section e ((hdr2 ++ name) :: L) with
                                        | Some r => [r] | None => [] end.
Proof.
  intros Hn HL. unfold parse_piece, section_text.
  rewrite strip_section_text by exact HL.
  destruct HL as (Hne & Hnl & _).
  replace (is_nil (join_nl ((hdr2 ++ name) :: L))) with false
    by (destruct L; [congruence|reflexivity]).
  rewrite split_join_lines.
  - reflexivity.
  - discriminate.
  - intros l [<-|Hl]; [|exact (Hnl l Hl)].
    intros Hin. apply in_app_iff in Hin as [Hin|Hin].
    + simpl in Hin. intuition discriminate.
    + exact (contains_nl_in name Hn Hin).
Qed.

End ParseFacts.

Module ShapeFacts.
Import StrFacts SplitFacts ParseFacts.

Lemma repl_none (old new s : str) : contains old s = false -> repl old new 0 s = s.
Proof.
  induction s as [|c s IH]; [reflexivity|].
  cbn [contains]. intros H. apply orb_false_iff in H as [H1 H2].
  cbn [repl]. rewrite H1, IH by exact H2. reflexivity.
Qed.

Lemma name_line (name : str) :
  contains hdr2 name = false -> replace_all hdr2 [] (hdr2 ++ name) = name.
Proof.
  intros H. change (replace_all hdr2 [] (hdr2 ++ name)) with (repl hdr2 [] 0 name).
  apply repl_none, H.
Qed.

Lemma collect_until_app (P : str -> bool) (xs : list str) (y : str) (ys : list str) :
  forallb (fun l => negb (P l)) xs = true -> P y = true ->
  collect_until P (xs ++ y :: ys) = (xs, y :: ys).
Proof.
  intros Hxs Hy. induction xs as [|x xs IH]; simpl; [rewrite Hy; reflexivity|].
  cbn [forallb] in Hxs. apply andb_true_iff in Hxs as [Hx Hxs].
  apply negb_true_iff in Hx. rewrite Hx, IH by exact Hxs. reflexivity.
Qed.

Lemma skip_until_app (P : str -> bool) (xs : list str) (y : str) (ys : list str) :
  forallb (fun l => negb (P l)) xs = true -> P y = true ->
  skip_until P (xs ++ y :: ys) = y :: ys.
Proof.
  intros Hxs Hy. induction xs as [|x xs IH]; simpl; [rewrite Hy; reflexivity|].
  cbn [forallb] in Hxs. apply andb_true_iff in Hxs as [Hx Hxs].
  apply negb_true_iff in Hx. rewrite Hx. exact (IH Hxs).
Qed.

Lemma forallb_and_r (f g : str -> bool) (L : list str) :
  forallb (fun l => f l && g l) L = true -> forallb g L = true.
Proof.
  rewrite !forallb_forall. intros H x Hx.
  specialize (H x Hx). apply andb_true_iff in H. tauto.
Qed.

Lemma forallb_and_l (f g : str -> bool) (L : list str) :
  forallb (fun l => f l && g l) L = true -> forallb f L = true.
Proof.
  rewrite !forallb_forall. intros H x Hx.
  specialize (H x Hx). apply andb_true_iff in H. tauto.
Qed.

(** The code of a fenced block reached after lines without a fence. *)
Lemma extract_code_block (pre : list str) (code : str) (rest : list str) :
  forallb (fun l => negb (is_fence l)) pre = true -> code_ok code = true ->
  extract_code (pre ++ fence :: split_nl code ++ fence :: rest)
  = (code, fence :: rest).
Proof.
  intros Hpre Hc. unfold extract_code.
  rewrite skip_until_app by (exact Hpre || reflexivity). cbn [tl].
  rewrite collect_until_app.
  - rewrite join_split. reflexivity.
  - exact (forallb_and_r _ _ _ Hc).
  - reflexivity.
Qed.

Lemma desc_text (desc : str) :
  str_eqb (strip desc) desc = true ->
  strip (join_nl ([] :: split_nl desc ++ [[]])) = desc.
Proof.
  intros Hd. destruct (split_nl_cons desc) as (l & ls & E).
  change ([] :: split_nl desc ++ [[]]) with ([[]] ++ split_nl desc ++ [[]]).
  rewrite join_nl_app by (rewrite ?E; discriminate).
  rewrite join_nl_app by (rewrite ?E; discriminate).
  rewrite join_split. cbn [join_nl app].
  unfold str_eqb in Hd. destruct (list_eq_dec Z.eq_dec (strip desc) desc) as [Hd'|];
    [|discriminate].
  rewrite <- Hd' at 2. unfold nl.
  change (10%Z :: desc ++ [10%Z] ++ []) with ([10%Z] ++ desc ++ [10%Z]).
  apply strip_around; reflexivity.
Qed.

Lemma strip_name (name : str) : name_ok name = true -> strip name = name.
Proof.
  unfold name_ok, str_eqb. intros H.
  destruct (list_eq_dec Z.eq_dec (strip name) name); [assumption|].
  rewrite andb_false_r in H. discriminate.
Qed.

(** The lines after the header of a section [convert_rules_to_mdc] writes. *)
Definition full_lines (desc orig modi : str) : list str :=
  ([] :: split_nl desc ++ [[]]) ++ orig_hdr ::
  ([[]] ++ fence :: split_nl orig ++ fence ::
   ([[]] ++ mod_hdr :: ([[]] ++ fence :: split_nl modi ++ [fence]))).

Lemma fields_full (name desc orig modi : str) :
  name_ok name = true -> desc_ok desc = true ->
  code_ok orig = true -> code_ok modi = true ->
  section_fields ((hdr2 ++ name) :: full_lines desc orig modi)
  = Some (name, desc, orig, modi).
Proof.
  intros Hn Hd Ho Hm. unfold section_fields, full_lines.
  rewrite name_line.
  2:{ unfold name_ok in Hn. destruct (contains hdr2 name); [|reflexivity].
      rewrite andb_false_r, andb_false_l in Hn. discriminate. }
  rewrite strip_name by exact Hn.
  replace (is_nil name) with false.
  2:{ unfold name_ok in Hn. destruct name; [discriminate|reflexivity]. }
  unfold desc_ok in Hd. apply andb_true_iff in Hd as [Hd1 Hd2].
  rewrite collect_until_app; [|simpl; rewrite forallb_app;
    rewrite (forallb_and_r _ _ _ Hd1); reflexivity | reflexivity].
  rewrite desc_text by exact Hd2.
  replace (starts_orig orig_hdr) with true by reflexivity.
  rewrite extract_code_block by (exact Ho || reflexivity).
  cbn [tl].
  rewrite skip_until_app by reflexivity.
  replace (starts_mod mod_hdr) with true by reflexivity.
  rewrite extract_code_block by (exact Hm || reflexivity).
  reflexivity.
Qed.

Lemma fields_no_mod_fence (name desc orig : str) :
  name_ok name = true -> desc_ok desc = true -> code_ok orig = true ->
  section_fields ((hdr2 ++ name) ::
    (([] :: split_nl desc ++ [[]]) ++ orig_hdr ::
     ([[]] ++ fence :: split_nl orig ++ fence :: ([[]] ++ [mod_hdr]))))
  = Some (name, desc, orig, []).
Proof.
  intros Hn Hd Ho. unfold section_fields.
  rewrite name_line.
  2:{ unfold name_ok in Hn. destruct (contains hdr2 name); [|reflexivity].
      rewrite andb_false_r, andb_false_l in Hn. discriminate. }
  rewrite strip_name by exact Hn.
  replace (is_nil name) with false.
  2:{ unfold name_ok in Hn. destruct name; [discriminate|reflexivity]. }
  unfold desc_ok in Hd. apply andb_true_iff in Hd as [Hd1 Hd2].
  rewrite collect_until_app; [|simpl; rewrite forallb_app;
    rewrite (forallb_and_r _ _ _ Hd1); reflexivity | reflexivity].
  rewrite desc_text by exact Hd2.
  replace (starts_orig orig_hdr) with true by reflexivity.
  rewrite extract_code_block by (exact Ho || reflexivity).
  reflexivity.
Qed.

Lemma fields_no_orig_fence (name desc between modi : str) :
  name_ok name = true -> desc_ok desc = true ->
  code_ok between = true -> code_ok modi = true ->
  section_fields ((hdr2 ++ name) ::
    (([] :: split_nl desc ++ [[]]) ++ orig_hdr ::
     ((split_nl between ++ [mod_hdr; []]) ++ fence :: split_nl modi ++ [fence])))
  = Some (name, desc, modi, []).
Proof.
  intros Hn Hd Hb Hm. unfold section_fields.
  rewrite name_line.
  2:{ unfold name_ok in Hn. destruct (contains hdr2 name); [|reflexivity].
      rewrite andb_false_r, andb_false_l in Hn. discriminate. }
  rewrite strip_name by exact Hn.
  replace (is_nil name) with false.
  2:{ unfold name_ok in Hn. destruct name; [discriminate|reflexivity]. }
  unfold desc_ok in Hd. apply andb_true_iff in Hd as [Hd1 Hd2].
  rewrite collect_until_app; [|simpl; rewrite forallb_app;
    rewrite (forallb_and_r _ _ _ Hd1); reflexivity | reflexivity].
  rewrite desc_text by exact Hd2.
  replace (starts_orig orig_hdr) with true by reflexivity.
  rewrite extract_code_block.
  - reflexivity.
  - rewrite forallb_app, (forallb_and_r _ _ _ Hb). reflexivity.
  - exact Hm.
Qed.

(** ** Joining the lines of a section back into its text *)

Lemma join_cons_cons (x y : str) (ys : list str) :
  join_nl (x :: y :: ys) = x ++ nl ++ join_nl (y :: ys).
Proof. reflexivity. Qed.

Lemma join_cons_split (x c : str) (ys : list str) :
  join_nl (x :: split_nl c ++ ys) = x ++ nl ++ join_nl (split_nl c ++ ys).
Proof. destruct (split_nl_cons c) as (l & ls & ->). reflexivity. Qed.

Lemma join_split_cons (c y : str) (ys : list str) :
  join_nl (split_nl c ++ y :: ys) = c ++ nl ++ join_nl (y :: ys).
Proof.
  destruct (split_nl_cons c) as (l & ls & E).
  rewrite join_nl_app by (rewrite ?E; discriminate). rewrite join_split. reflexivity.
Qed.

Ltac join_lines :=
  repeat first [ rewrite join_split_cons | rewrite join_cons_split
               | rewrite join_cons_cons ].

Definition full_text (name desc orig modi : str) : str :=
  section_text name (full_lines desc orig modi).

Lemma rule_block_text (r : Rule) :
  rule_block r = full_text (get (r_name r)) (get (r_description r))
                   (get (r_original_code r)) (get (r_modified_code r)).
Proof.
  unfold full_text, section_text, full_lines, rule_block.
  cbn [app]. rewrite <- ?app_assoc. cbn [app]. join_lines.
  rewrite <- !app_assoc. reflexivity.
Qed.

Lemma no_mod_fence_text (name desc orig : str) :
  block_no_mod_fence name desc orig =
  section_text name (([] :: split_nl desc ++ [[]]) ++ orig_hdr ::
     ([[]] ++ fence :: split_nl orig ++ fence :: ([[]] ++ [mod_hdr]))).
Proof.
  unfold section_text, block_no_mod_fence.
  cbn [app]. rewrite <- ?app_assoc. cbn [app]. join_lines.
  rewrite <- !app_assoc. reflexivity.
Qed.

Lemma no_orig_fence_text (name desc between modi : str) :
  block_no_orig_fence name desc between modi =
  section_text name (([] :: split_nl desc ++ [[]]) ++ orig_hdr ::
     ((split_nl between ++ [mod_hdr; []]) ++ fence :: split_nl modi ++ [fence])).
Proof.
  unfold section_text, block_no_orig_fence.
  cbn [app]. rewrite <- ?app_assoc. cbn [app]. join_lines.
  rewrite <- !app_assoc. reflexivity.
Qed.

Lemma last_app_ne (a b : str) (d : Z) : b <> [] -> last (a ++ b) d = last b d.
Proof.
  intros Hb. induction a as [|x a IH]; [reflexivity|].
  rewrite <- app_comm_cons. rewrite <- IH. simpl.
  destruct (a ++ b) eqn:E; [|reflexivity].
  apply app_eq_nil in E. tauto.
Qed.

Lemma join_snoc (xs : list str) (l : str) (d : Z) :
  l <> [] -> join_nl (xs ++ [l]) <> [] /\ last (join_nl (xs ++ [l])) d = last l d.
Proof.
  intros Hl. induction xs as [|x xs IH]; [simpl; tauto|].
  destruct IH as [IH1 IH2].
  assert (E : join_nl ((x :: xs) ++ [l]) = x ++ nl ++ join_nl (xs ++ [l]))
    by (destruct xs; reflexivity).
  rewrite E. split.
  - intros H. apply app_eq_nil in H as [_ H]. discriminate H.
  - rewrite last_app_ne, last_app_ne by (discriminate || exact IH1). exact IH2.
Qed.

Lemma lines_ok_intro (L L' : list str) (l : str) :
  L = L' ++ [l] -> l <> [] -> is_space (last l 0%Z) = false ->
  (forall x, In x L -> ~ In 10%Z x) -> forallb not_hdr_line L = true ->
  lines_ok L.
Proof.
  intros -> Hl Hs Hnl Hok. destruct (join_snoc L' l 0%Z Hl) as [J1 J2].
  split; [intros H; apply app_eq_nil in H as [_ H]; discriminate H|].
  split; [exact Hnl|]. split; [exact Hok|]. split; [exact J1|].
  rewrite J2. exact Hs.
Qed.

Ltac snoc_eq :=
  repeat (rewrite app_comm_cons || rewrite app_assoc); reflexivity.

Ltac lines_no_nl :=
  let l := fresh "l" in let Hl := fresh "Hl" in
  intros l Hl;
  repeat match type of Hl with
  | In _ (_ ++ _) => apply in_app_iff in Hl as [Hl|Hl]
  | In _ (_ :: _) => destruct Hl as [<-|Hl]
  | In _ [] => destruct Hl
  end;
  first [ exact (split_nl_lines _ _ Hl) | (vm_compute; intuition discriminate) ].

Lemma code_hdr (s : str) :
  code_ok s = true -> forallb not_hdr_line (split_nl s) = true.
Proof. apply forallb_and_l. Qed.

Lemma desc_hdr (s : str) :
  desc_ok s = true -> forallb not_hdr_line (split_nl s) = true.
Proof. unfold desc_ok. intros H. apply andb_true_iff in H as [H _]. revert H. apply forallb_and_l. Qed.

Lemma name_one_line (s : str) : name_ok s = true -> contains nl s = false.
Proof.
  unfold name_ok. intros H. apply andb_true_iff in H as [H _].
  apply andb_true_iff in H as [H _]. apply andb_true_iff in H as [_ H].
  apply negb_true_iff in H. exact H.
Qed.

Lemma lines_ok_full (desc orig modi : str) :
  desc_ok desc = true -> code_ok orig = true -> code_ok modi = true ->
  lines_ok (full_lines desc orig modi).
Proof.
  intros Hd Ho Hm. apply desc_hdr in Hd. apply code_hdr in Ho, Hm.
  eapply (lines_ok_intro _ _ fence); [unfold full_lines; snoc_eq | discriminate | reflexivity | |].
  - unfold full_lines. lines_no_nl.
  - unfold full_lines. repeat progress (rewrite ?forallb_app; cbn [forallb]). rewrite Hd, Ho, Hm. reflexivity.
Qed.

Lemma lines_ok_no_mod_fence (desc orig : str) :
  desc_ok desc = true -> code_ok orig = true ->
  lines_ok (([] :: split_nl desc ++ [[]]) ++ orig_hdr ::
     ([[]] ++ fence :: split_nl orig ++ fence :: ([[]] ++ [mod_hdr]))).
Proof.
  intros Hd Ho. apply desc_hdr in Hd. apply code_hdr in Ho.
  eapply (lines_ok_intro _ _ mod_hdr); [snoc_eq | discriminate | reflexivity | |].
  - lines_no_nl.
  - repeat progress (rewrite ?forallb_app; cbn [forallb]). rewrite Hd, Ho. reflexivity.
Qed.

Lemma lines_ok_no_orig_fence (desc between modi : str) :
  desc_ok desc = true -> code_ok between = true -> code_ok modi = true ->
  lines_ok (([] :: split_nl desc ++ [[]]) ++ orig_hdr ::
     ((split_nl between ++ [mod_hdr; []]) ++ fence :: split_nl modi ++ [fence])).
Proof.
  intros Hd Hb Hm. apply desc_hdr in Hd. apply code_hdr in Hb, Hm.
  eapply (lines_ok_intro _ _ fence); [snoc_eq | discriminate | reflexivity | |].
  - lines_no_nl.
  - repeat progress (rewrite ?forallb_app; cbn [forallb]). rewrite Hd, Hb, Hm. reflexivity.
Qed.
End ShapeFacts.

(** ** Small facts on the Python-level operations *)

Module OpFacts.

Lemma str_eqb_refl (s : str) : str_eqb s s = true.
Proof. unfold str_eqb. destruct (list_eq_dec Z.eq_dec s s); congruence. Qed.

Lemma opt_str_eqb_refl (o : option str) : opt_str_eqb o o = true.
Proof. destruct o; [apply str_eqb_refl | reflexivity]. Qed.

Lemma opt_str_eqb_true (a b : option str) : opt_str_eqb a b = true -> a = b.
Proof.
  destruct a as [x|], b as [y|]; cbn; try congruence.
  unfold str_eqb. destruct (list_eq_dec Z.eq_dec x y); congruence.
Qed.

Lemma filter_none {A} (f : A -> bool) (l : list A) :
  (forall x, In x l -> f x = false) -> filter f l = [].
Proof.
  induction l as [|a l IH]; intros H; [reflexivity|]. cbn.
  rewrite (H a (or_introl eq_refl)). apply IH. intros x Hx. apply H. right. exact Hx.
Qed.

Lemma filter_all {A} (f : A -> bool) (l : list A) :
  (forall x, In x l -> f x = true) -> filter f l = l.
Proof.
  induction l as [|a l IH]; intros H; [reflexivity|]. cbn.
  rewrite (H a (or_introl eq_refl)). f_equal. apply IH. intros x Hx. apply H. right. exact Hx.
Qed.

Lemma length_filter_split {A} (f : A -> bool) (l : list A) :
  length l = length (filter (fun x => negb (f x)) l) + length (filter f l).
Proof.
  induction l as [|a l IH]; [reflexivity|]. cbn. destruct (f a); cbn; lia.
Qed.

Lemma length_filter_pos {A} (f : A -> bool) (l : list A) (x : A) :
  In x l -> f x = true -> 0 < length (filter f l).
Proof.
  intros Hx Hf. assert (H : In x (filter f l)) by (apply filter_In; auto).
  destruct (filter f l); [destruct H | cbn; lia].
Qed.

End OpFacts.

(** ** The codec *)

Module Codec.
Import StrFacts SplitFacts ParseFacts ShapeFacts OpFacts.

Lemma parse_section_inv (e : env) (ls : list str) (r : Rule) :
  parse_section e ls = Some r ->
  exists n d o m, section_fields ls = Some (n, d, o, m) /\
    is_nil n = false /\ (negb (is_nil o) || negb (is_nil m)) = true /\
    r = mk_rule (Some (replace_all (lit " ") (lit "_") n ++ lit "_" ++ stamp e))
          (Some n) (Some d) (Some o) (Some m) (Some feedback_mdc) (Some [])
          (Some (now_iso e)) None.
Proof.
  unfold parse_section.
  destruct (section_fields ls) as [[[[n d] o] m]|]; [|discriminate].
  destruct (negb (is_nil n) && (negb (is_nil o) || negb (is_nil m))) eqn:C;
    [|discriminate].
  intros H. injection H as <-. apply andb_true_iff in C as [C1 C2].
  apply negb_true_iff in C1. exists n, d, o, m. auto.
Qed.

Lemma in_convert (e : env) (s : str) (r : Rule) :
  In r (convert_mdc_to_rules e s) -> exists ls, parse_section e ls = Some r.
Proof.
  unfold convert_mdc_to_rules. destruct (is_nil (strip s)); [intros []|].
  intros H. apply in_flat_map in H as (sec & _ & H). unfold parse_piece in H.
  destruct (is_nil (strip sec)); [destruct H|].
  destruct (parse_section e (split_nl (strip sec))) eqn:E; [|destruct H].
  destruct H as [<-|[]]. eauto.
Qed.

Lemma in_load (e : env) (w : world) (r : Rule) :
  In r (load_all_rules e w) -> exists s, In r (convert_mdc_to_rules e s).
Proof.
  unfold load_all_rules. destruct (negb (root_set w)); [intros []|].
  destruct (doc w) as [s|]; [eauto | intros []].
Qed.

Lemma parsed_shape (e : env) (s : str) (r : Rule) :
  In r (convert_mdc_to_rules e s) ->
  truthy (r_name r) = true /\
  (truthy (r_original_code r) || truthy (r_modified_code r)) = true /\
  r_tags r = Some [] /\ r_feedback r = Some feedback_mdc.
Proof.
  intros H. apply in_convert in H as (ls & H).
  apply parse_section_inv in H as (n & d & o & m & _ & Hn & Hom & ->).
  split; [cbn; rewrite Hn; reflexivity|]. split; [exact Hom|]. auto.
Qed.

Lemma name_nonempty (n : str) : name_ok n = true -> is_nil n = false.
Proof.
  unfold name_ok. destruct (is_nil n); [discriminate | reflexivity].
Qed.

Lemma rule_ok_parts (r : Rule) :
  rule_ok r = true ->
  name_ok (get (r_name r)) = true /\ desc_ok (get (r_description r)) = true /\
  code_ok (get (r_original_code r)) = true /\ code_ok (get (r_modified_code r)) = true /\
  (negb (is_nil (get (r_original_code r))) || negb (is_nil (get (r_modified_code r)))) = true.
Proof. unfold rule_ok. rewrite !andb_true_iff. tauto. Qed.

Lemma parse_full (e : env) (n d o m : str) :
  name_ok n = true -> desc_ok d = true -> code_ok o = true -> code_ok m = true ->
  (negb (is_nil o) || negb (is_nil m)) = true ->
  exists r, parse_piece e (full_text n d o m) = [r] /\ content r = (n, d, o, m).
Proof.
  intros Hn Hd Ho Hm Hom. unfold full_text.
  rewrite parse_piece_section;
    [| apply name_one_line; exact Hn | apply lines_ok_full; assumption].
  unfold parse_section. rewrite fields_full by assumption.
  rewrite (name_nonempty n Hn), Hom. eexists; split; reflexivity.
Qed.

Lemma block_good (r : Rule) : rule_ok r = true -> good_block (rule_block r).
Proof.
  intros H. apply rule_ok_parts in H as (Hn & Hd & Ho & Hm & _).
  rewrite rule_block_text. apply section_good;
    [apply name_one_line; exact Hn | apply lines_ok_full; assumption].
Qed.

Lemma blocks_good (rs : list Rule) :
  forallb rule_ok rs = true -> Forall good_block (map rule_block rs).
Proof.
  induction rs as [|r rs IH]; intros H; cbn; [constructor|].
  apply andb_true_iff in H as [H1 H2]. constructor; [apply block_good, H1 | apply IH, H2].
Qed.

Lemma parse_blocks (e : env) (rs : list Rule) :
  forallb rule_ok rs = true ->
  map content (flat_map (parse_piece e) (map rule_block rs)) = map content rs.
Proof.
  induction rs as [|r rs IH]; intros H; [reflexivity|].
  cbn [map flat_map]. apply andb_true_iff in H as [H1 H2].
  apply rule_ok_parts in H1 as (Hn & Hd & Ho & Hm & Hom).
  rewrite rule_block_text.
  destruct (parse_full e _ _ _ _ Hn Hd Ho Hm Hom) as (r' & -> & Hc).
  cbn [app map]. rewrite IH by exact H2. f_equal. rewrite Hc. reflexivity.
Qed.

Lemma content_block (r r' : Rule) : content r = content r' -> rule_block r = rule_block r'.
Proof.
  unfold content. intros H. injection H as H1 H2 H3 H4.
  rewrite !rule_block_text, H1, H2, H3, H4. reflexivity.
Qed.

Lemma content_blocks (rs rs' : list Rule) :
  map content rs = map content rs' -> map rule_block rs = map rule_block rs'.
Proof.
  revert rs'. induction rs as [|r rs IH]; intros [|r' rs'] H; try discriminate H;
    [reflexivity|].
  cbn [map] in H |- *.
  pose proof (f_equal (hd (content r)) H) as H1. pose proof (f_equal (@tl _) H) as H2.
  cbn [hd tl] in H1, H2. f_equal; [apply content_block, H1 | apply IH, H2].
Qed.

(** [C1] Round trip of the content fields.  For records whose name is
    non-empty, on one line, without ["## "] inside and without surrounding
    whitespace, whose description has no surrounding whitespace and no line
    starting with ["## "] or ["### 원본 코드"], whose two snippets have no
    line starting with ["## "] and no fence line, and which have a non-empty
    original or modified snippet, parsing the serialised document gives the
    records' name, description, original and modified code back, one record
    per input record, in order (the empty list included). *)
Theorem convert_round_trip (e : env) (rs : list Rule) :
  forallb rule_ok rs = true ->
  map content (convert_mdc_to_rules e (convert_rules_to_mdc rs)) = map content rs.
Proof.
  intros H. unfold convert_rules_to_mdc.
  rewrite convert_blocks by (apply blocks_good, H). apply parse_blocks, H.
Qed.

Lemma convert_round_trip_witness :
  forallb rule_ok [Samples.rA] = true /\
  map content (convert_mdc_to_rules Samples.e0 (convert_rules_to_mdc [Samples.rA]))
  = map content [Samples.rA].
Proof.
  split; [vm_compute; reflexivity|].
  apply (convert_round_trip Samples.e0 [Samples.rA]). vm_compute. reflexivity.
Defined.

(** [C1] The round trip fails for distinct non-empty names with non-empty
    code: an original snippet with a Markdown fence line ["```"] comes back
    cut before that line. *)
Lemma convert_round_trip_fence_line :
  map content (convert_mdc_to_rules Samples.e0 (convert_rules_to_mdc [Samples.r_fence]))
  = [(lit "a", lit "d", lit "p", lit "y")] /\
  map content [Samples.r_fence]
  = [(lit "a", lit "d", lit "p" ++ nl ++ fence ++ nl ++ lit "q", lit "y")].
Proof. split; vm_compute; reflexivity. Qed.

Lemma parse_no_mod_fence (e : env) (n d o : str) :
  name_ok n = true -> desc_ok d = true -> code_ok o = true -> is_nil o = false ->
  exists r, parse_piece e (block_no_mod_fence n d o) = [r] /\ content r = (n, d, o, []).
Proof.
  intros Hn Hd Ho Ho'. rewrite no_mod_fence_text.
  rewrite parse_piece_section;
    [| apply name_one_line; exact Hn | apply lines_ok_no_mod_fence; assumption].
  unfold parse_section. rewrite fields_no_mod_fence by assumption.
  rewrite (name_nonempty n Hn), Ho'. eexists; split; reflexivity.
Qed.

(** [C7] A record is kept only when the section's fields have a non-empty
    name (the header line stripped) and a non-empty original or modified
    snippet; and a section with no fenced block under its modified-code
    sub-header gives a record with its original snippet and an empty
    modified snippet, the well-formed sections after it parsing as usual. *)
Theorem parse_keep_and_recovery (e : env) (n d o : str) (rest : list Rule) :
  name_ok n = true -> desc_ok d = true -> code_ok o = true -> is_nil o = false ->
  forallb rule_ok rest = true ->
  (forall s r, In r (convert_mdc_to_rules e s) ->
     exists ls n' d' o' m', section_fields ls = Some (n', d', o', m') /\
       is_nil n' = false /\ (negb (is_nil o') || negb (is_nil m')) = true /\
       content r = (n', d', o', m')) /\
  map content (convert_mdc_to_rules e
                 (title ++ block_no_mod_fence n d o ++ concat (map rule_block rest)))
  = (n, d, o, []) :: map content rest.
Proof.
  intros Hn Hd Ho Ho' Hrest. split.
  - intros s r Hr. apply in_convert in Hr as (ls & Hr).
    apply parse_section_inv in Hr as (n' & d' & o' & m' & Hf & H1 & H2 & ->).
    exists ls, n', d', o', m'. auto.
  - change (block_no_mod_fence n d o ++ concat (map rule_block rest))
      with (concat (block_no_mod_fence n d o :: map rule_block rest)).
    rewrite convert_blocks.
    + cbn [flat_map]. destruct (parse_no_mod_fence e n d o Hn Hd Ho Ho') as (r & -> & Hc).
      cbn [app map]. rewrite parse_blocks by exact Hrest. rewrite Hc. reflexivity.
    + constructor; [|apply blocks_good, Hrest].
      rewrite no_mod_fence_text. apply section_good;
        [apply name_one_line; exact Hn | apply lines_ok_no_mod_fence; assumption].
Qed.

Lemma parse_keep_and_recovery_witness :
  name_ok (lit "n") = true /\
  map content (convert_mdc_to_rules Samples.e0
                 (title ++ block_no_mod_fence (lit "n") (lit "d") (lit "o")
                  ++ concat (map rule_block [Samples.rA])))
  = (lit "n", lit "d", lit "o", []) :: map content [Samples.rA].
Proof.
  split; [vm_compute; reflexivity|].
  apply (parse_keep_and_recovery Samples.e0 (lit "n") (lit "d") (lit "o") [Samples.rA]);
    vm_compute; reflexivity.
Defined.

(** [C9] The document of a record list depends only on the names,
    descriptions and snippets (no tags, no feedback); every parsed record has
    tags [[]] and feedback ["MDC에서 추출"]; so filtering the loaded records
    by a non-empty tag list gives nothing. *)
Theorem codec_drops_tags_feedback (e : env) (w : world) (rs rs' : list Rule)
    (t : str) (ts : list str) :
  map content rs = map content rs' ->
  convert_rules_to_mdc rs = convert_rules_to_mdc rs' /\
  (forall s r, In r (convert_mdc_to_rules e s) ->
     r_tags r = Some [] /\ r_feedback r = Some feedback_mdc) /\
  load_rules_by_tags e w (t :: ts) = [].
Proof.
  intros H. split; [|split].
  - unfold convert_rules_to_mdc. rewrite (content_blocks rs rs' H). reflexivity.
  - intros s r Hr. apply parsed_shape in Hr. tauto.
  - unfold load_rules_by_tags. apply filter_none. intros r Hr.
    apply in_load in Hr as (s & Hr). apply parsed_shape in Hr as (_ & _ & Ht & _).
    unfold has_any_tag, get_tags. rewrite Ht. cbn.
    induction ts as [|x ts IH]; [reflexivity | exact IH].
Qed.

Lemma codec_drops_tags_feedback_witness :
  map content [Samples.rA]
  = map content [mk_rule None (Some (lit "a")) (Some (lit "d")) (Some (lit "x"))
                   (Some (lit "y")) (Some (lit "f")) (Some [lit "t"]) None None] /\
  load_rules_by_tags Samples.e0 Samples.wA [lit "t"] = [].
Proof.
  split; [reflexivity|].
  apply (codec_drops_tags_feedback Samples.e0 Samples.wA [Samples.rA]
           [mk_rule None (Some (lit "a")) (Some (lit "d")) (Some (lit "x"))
              (Some (lit "y")) (Some (lit "f")) (Some [lit "t"]) None None]
           (lit "t") []).
  reflexivity.
Defined.

(** [C10] When no fenced block stands between the ["### 원본 코드"] and
    ["### 수정된 코드"] sub-headers, the fenced block of the modified-code
    sub-section is read as the original snippet and the modified snippet is
    empty. *)
Theorem orig_scan_past_mod_header (e : env) (n d between m : str) :
  name_ok n = true -> desc_ok d = true -> code_ok between = true ->
  code_ok m = true -> is_nil m = false ->
  map content (convert_mdc_to_rules e (title ++ block_no_orig_fence n d between m))
  = [(n, d, m, [])].
Proof.
  intros Hn Hd Hb Hm Hm'.
  rewrite <- (app_nil_r (block_no_orig_fence n d between m)).
  change (block_no_orig_fence n d between m ++ [])
    with (concat [block_no_orig_fence n d between m]).
  assert (Hl := lines_ok_no_orig_fence d between m Hd Hb Hm).
  rewrite convert_blocks.
  - cbn [flat_map]. rewrite app_nil_r, no_orig_fence_text.
    rewrite parse_piece_section; [| apply name_one_line; exact Hn | exact Hl].
    unfold parse_section. rewrite fields_no_orig_fence by assumption.
    rewrite (name_nonempty n Hn), Hm'. reflexivity.
  - constructor; [|constructor]. rewrite no_orig_fence_text.
    apply section_good; [apply name_one_line; exact Hn | exact Hl].
Qed.

Lemma orig_scan_past_mod_header_witness :
  code_ok (lit "b") = true /\
  map content (convert_mdc_to_rules Samples.e0
                 (title ++ block_no_orig_fence (lit "n") (lit "d") (lit "b") (lit "m")))
  = [(lit "n", lit "d", lit "m", [])].
Proof.
  split; [vm_compute; reflexivity|].
  apply (orig_scan_past_mod_header Samples.e0 (lit "n") (lit "d") (lit "b") (lit "m"));
    vm_compute; reflexivity.
Defined.

End Codec.

(** ** The store *)

Module Store.
Import OpFacts Codec.

Lemma update_in_app (e : env) (rule ex : Rule) (pre post : list Rule) :
  forallb (fun r => negb (update_matches rule r)) pre = true ->
  update_matches rule ex = true ->
  update_in e rule (pre ++ ex :: post) = Some (pre ++ update_merge e rule ex :: post).
Proof.
  intros Hpre Hex. induction pre as [|p pre IH]; cbn [app update_in].
  - rewrite Hex. reflexivity.
  - cbn [forallb] in Hpre. apply andb_true_iff in Hpre as [H1 H2].
    apply negb_true_iff in H1. rewrite H1, IH by exact H2. reflexivity.
Qed.

(** [C2] For a request with a non-empty name, [update_rule] replaces the
    first stored record (in stored order) that the request matches, by its
    non-empty id or by its name, with the request record itself: the id and [created_at] are the matched
    record's (fresh ones when it has none), [updated_at] is the current
    time, and every other field is the request's, so a field the request
    omits is absent from the written record; the other records are written
    unchanged. *)
Theorem update_rule_replaces (e : env) (w : world) (rule ex : Rule)
    (pre post : list Rule) :
  root_set w = true -> writable w = true -> truthy (r_name rule) = true ->
  load_all_rules e w = pre ++ ex :: post ->
  forallb (fun r => negb (update_matches rule r)) pre = true ->
  update_matches rule ex = true ->
  let stored := update_merge e rule ex in
  update_rule e w rule
  = ((true, MsgUpdated (get (r_name rule))),
     set_doc w (convert_rules_to_mdc (pre ++ stored :: post))) /\
  r_id stored = (if truthy (r_id ex) then r_id ex else Some (fresh_uuid e)) /\
  r_created_at stored
  = (if truthy (r_created_at ex) then r_created_at ex else Some (now_iso e)) /\
  r_updated_at stored = Some (now_iso e) /\
  r_name stored = r_name rule /\ r_description stored = r_description rule /\
  r_original_code stored = r_original_code rule /\
  r_modified_code stored = r_modified_code rule /\
  r_feedback stored = r_feedback rule /\ r_tags stored = r_tags rule.
Proof.
  intros Hr Hw Hn HL Hpre Hex stored.
  split; [|repeat split; reflexivity].
  unfold update_rule. rewrite Hr. cbn [negb]. cbv zeta. rewrite Hn, HL. cbn [negb andb].
  rewrite update_in_app by assumption.
  unfold save_rules_to_mdc. rewrite Hr, Hw. reflexivity.
Qed.

Lemma update_rule_replaces_witness :
  load_all_rules Samples.e0 Samples.wA = [] ++ Samples.rA_loaded :: [] /\
  update_rule Samples.e0 Samples.wA (Samples.req (Some (lit "a")) (Some (lit "z")) None)
  = ((true, MsgUpdated (lit "a")),
     set_doc Samples.wA (convert_rules_to_mdc
       ([] ++ update_merge Samples.e0 (Samples.req (Some (lit "a")) (Some (lit "z")) None)
                Samples.rA_loaded :: []))).
Proof.
  split; [vm_compute; reflexivity|].
  apply (update_rule_replaces Samples.e0 Samples.wA
           (Samples.req (Some (lit "a")) (Some (lit "z")) None) Samples.rA_loaded [] []);
    vm_compute; reflexivity.
Defined.

(** [C2] A field the update request omits does not keep its prior value:
    updating rule [a] (description [d], modified code [y]) with a request
    giving only its name and a new original snippet leaves it with an empty
    description and an empty modified snippet. *)
Lemma update_rule_drops_omitted_fields :
  map content (load_all_rules Samples.e0 Samples.wA)
  = [(lit "a", lit "d", lit "x", lit "y")] /\
  let res := update_rule Samples.e0 Samples.wA
               (Samples.req (Some (lit "a")) (Some (lit "z")) None) in
  fst res = (true, MsgUpdated (lit "a")) /\
  map content (load_all_rules Samples.e0 (snd res)) = [(lit "a", [], lit "z", [])].
Proof. split; [|split]; vm_compute; reflexivity. Qed.

(** [C4] Adding a record whose name a stored record already has fails with
    the duplicate-name message carrying that name, and the store is left as
    it was. *)
Theorem add_rule_duplicate (e : env) (w : world) (rule ex : Rule) (n : str) :
  root_set w = true -> r_name rule = Some n -> n <> [] ->
  In ex (load_all_rules e w) -> r_name ex = Some n ->
  add_rule e w rule = ((false, MsgDuplicate n), w) /\
  load_all_rules e (snd (add_rule e w rule)) = load_all_rules e w.
Proof.
  intros Hr Hn Hne Hin Hex.
  assert (E : add_rule e w rule = ((false, MsgDuplicate n), w)).
  { unfold add_rule. rewrite Hr, Hn. cbn [negb truthy].
    destruct n as [|c n]; [congruence|]. cbn [is_nil negb].
    assert (Hx : existsb (fun ex0 => opt_str_eqb (r_name ex0) (@Some str (c :: n)))
                   (load_all_rules e w) = true).
    { apply existsb_exists. exists ex. rewrite Hex. split; [exact Hin|].
      apply opt_str_eqb_refl. }
    cbv zeta. rewrite Hx. reflexivity. }
  rewrite E. split; reflexivity.
Qed.

Lemma add_rule_duplicate_witness :
  add_rule Samples.e0 Samples.wA (Samples.req (Some (lit "a")) (Some (lit "q")) None)
  = ((false, MsgDuplicate (lit "a")), Samples.wA) /\
  load_all_rules Samples.e0
    (snd (add_rule Samples.e0 Samples.wA (Samples.req (Some (lit "a")) (Some (lit "q")) None)))
  = load_all_rules Samples.e0 Samples.wA.
Proof.
  apply (add_rule_duplicate Samples.e0 Samples.wA
           (Samples.req (Some (lit "a")) (Some (lit "q")) None) Samples.rA_loaded (lit "a")).
  - reflexivity.
  - reflexivity.
  - discriminate.
  - vm_compute. left. reflexivity.
  - reflexivity.
Defined.

(** [C5] An empty tag list gives every stored record; a non-empty one gives,
    in stored order, exactly the stored records having at least one of the
    requested tags. *)
Theorem load_rules_by_tags_any (e : env) (w : world) (t : str) (ts : list str) :
  load_rules_by_tags e w [] = load_all_rules e w /\
  load_rules_by_tags e w (t :: ts) = filter (has_any_tag (t :: ts)) (load_all_rules e w) /\
  (forall r, has_any_tag (t :: ts) r = true <->
             exists x, In x (t :: ts) /\ In x (get_tags r)).
Proof.
  split; [reflexivity|]. split; [reflexivity|].
  intros r. unfold has_any_tag. rewrite existsb_exists. split.
  - intros (x & Hx & Hy). apply existsb_exists in Hy as (y & Hy & E).
    unfold str_eqb in E. destruct (list_eq_dec Z.eq_dec x y) as [<-|]; [|discriminate].
    eauto.
  - intros (x & Hx & Hy). exists x. split; [exact Hx|].
    apply existsb_exists. exists x. split; [exact Hy | apply str_eqb_refl].
Qed.

(** [C6] With a root set and a writable document, deleting a name some
    stored record has succeeds and writes the stored records without every
    record of that name, so the count drops by the number of records having
    it; deleting a name no stored record has fails with the not-found
    message and leaves the store as it was. *)
Theorem delete_rule_filters (e : env) (w : world) :
  root_set w = true -> writable w = true ->
  forall n : str,
  let L := load_all_rules e w in
  let kept := filter (fun r => negb (opt_str_eqb (r_name r) (Some n))) L in
  ((exists r, In r L /\ r_name r = Some n) ->
     delete_rule e w n = ((true, MsgDeleted n), set_doc w (convert_rules_to_mdc kept)) /\
     length L = length kept + length (filter (fun r => opt_str_eqb (r_name r) (Some n)) L)) /\
  ((forall r, In r L -> r_name r <> Some n) ->
     delete_rule e w n = ((false, MsgNotFound n), w)).
Proof.
  intros Hr Hw n L kept.
  pose proof (length_filter_split (fun r => opt_str_eqb (r_name r) (Some n)) L) as Hs.
  split.
  - intros (r & Hin & Hn). split; [|exact Hs].
    assert (Hp : 0 < length (filter (fun r => opt_str_eqb (r_name r) (Some n)) L)).
    { apply (length_filter_pos _ _ r Hin). rewrite Hn. apply opt_str_eqb_refl. }
    assert (E : Nat.eqb (length kept) (length L) = false)
      by (apply Nat.eqb_neq; unfold kept; lia).
    unfold delete_rule. rewrite Hr. cbn [negb]. cbv zeta. fold L. fold kept.
    rewrite E. unfold save_rules_to_mdc. rewrite Hr, Hw. reflexivity.
  - intros Hno.
    assert (Hk : kept = L).
    { apply filter_all. intros r Hin. apply negb_true_iff.
      destruct (opt_str_eqb (r_name r) (Some n)) eqn:E; [|reflexivity].
      apply opt_str_eqb_true in E. destruct (Hno r Hin E). }
    unfold delete_rule. rewrite Hr. cbn [negb]. cbv zeta. fold L. fold kept.
    rewrite Hk, Nat.eqb_refl. reflexivity.
Qed.

Lemma delete_rule_filters_witness :
  delete_rule Samples.e0 Samples.wA (lit "b")
  = ((false, MsgNotFound (lit "b")), Samples.wA).
Proof.
  apply (delete_rule_filters Samples.e0 Samples.wA eq_refl eq_refl (lit "b")).
  intros r Hr. vm_compute in Hr. destruct Hr as [<-|[]]. discriminate.
Defined.

(** [C6] The record removed is not unique: with two stored records named
    [a], deleting [a] succeeds and the store count goes from 2 to 0. *)
Lemma delete_rule_removes_every_copy :
  length (load_all_rules Samples.e0 Samples.wAA) = 2 /\
  fst (delete_rule Samples.e0 Samples.wAA (lit "a")) = (true, MsgDeleted (lit "a")) /\
  length (load_all_rules Samples.e0 (snd (delete_rule Samples.e0 Samples.wAA (lit "a")))) = 0.
Proof. split; [|split]; vm_compute; reflexivity. Qed.

(** [C8] An update request carrying only the id of a stored record
    succeeds and writes a record with no name in place of that record: the
    document gets a section with an empty name, and the rule is gone from
    the next load. *)
Lemma update_by_id_writes_nameless :
  let res := update_rule Samples.e0 Samples.wA Samples.req_id in
  fst res = (true, MsgUpdated (lit "a_20260101")) /\
  doc (snd res)
  = Some (convert_rules_to_mdc [update_merge Samples.e0 Samples.req_id Samples.rA_loaded]) /\
  r_name (update_merge Samples.e0 Samples.req_id Samples.rA_loaded) = None /\
  load_all_rules Samples.e0 (snd res) = [].
Proof. split; [|split; [|split]]; vm_compute; reflexivity. Qed.

End Store.

(** ** The applier *)

Module Applier.

(** [C3] The applier runs the candidates (the tag-filtered store, or the
    whole store) in stored order, each step on the result of the steps
    before it; with rule [A] (["foo"] to ["bar"]) then rule [B] (["bar"] to
    ["baz"]) added to an empty store, applying to ["foo"] gives ["baz"] and
    the applied names [["A"; "B"]]. *)
Theorem apply_sequential (e : env) (w : world) (code : str) (tags : option (list str)) :
  apply_rules_to_code e w code tags
  = fold_left apply_step
      (match tags with None => load_all_rules e w | Some ts => load_rules_by_tags e w ts end)
      (code, []) /\
  (forall r rs acc,
     fold_left apply_step (r :: rs) acc = fold_left apply_step rs (apply_step acc r)) /\
  apply_rules_to_code Samples.e0 Samples.w_AB (lit "foo") None
  = (lit "baz", [lit "A"; lit "B"]).
Proof.
  split; [reflexivity|]. split; [reflexivity|]. vm_compute. reflexivity.
Qed.

End Applier.

(** ** Further properties of the store and the tools *)

Module Extra.
Import StrFacts SplitFacts ParseFacts ShapeFacts OpFacts Codec Store.

































Lemma extract_loop_bound (e : env) (names : list str) (rules : list Rule)
    (w : world) (k c : nat) :
  fst (fst (extract_loop e names rules w k c)) + snd (fst (extract_loop e names rules w k c))
  <= k + c + length rules.
Proof.
  revert w k c. induction rules as [|x rules IH]; intros w k c; [cbn; lia|].
  cbn [extract_loop length].
  destruct (negb (truthy (r_name x))); [specialize (IH w k c); lia|].
  destruct (existsb (str_eqb (get (r_name x))) names); [specialize (IH w k (S c)); lia|].
  destruct (add_rule e w x) as [[ok m] w'].
  destruct ok; [specialize (IH w' (S k) c) | specialize (IH w' k c)]; lia.
Qed.

(** [X6] The extract tool never reports more new plus already-present
    rules than it extracted. *)
Theorem extract_counts_bounded (e : env) (w : world) (rules_content : str) :
  match fst (mcp_auto_rules_extract_cursor_rules e w rules_content) with
  | ExtractDone extracted added existing => added + existing <= extracted
  | _ => True
  end.
Proof.
  unfold mcp_auto_rules_extract_cursor_rules. cbv zeta.
  destruct (extract_rules_from_mdc e rules_content) as [|r rs]; [exact I|].
  set (names := flat_map _ _).
  pose proof (extract_loop_bound e names (r :: rs) w 0 0) as H.
  destruct (extract_loop e names (r :: rs) w 0 0) as [[k c] w']. cbn in H |- *. lia.
Qed.










Lemma save_unwritable (rs : list Rule) (w : world) :
  writable w = false -> truncate_keep w = None -> save_rules_to_mdc rs w = (false, w).
Proof.
  intros Hw Hk. unfold save_rules_to_mdc. cbv zeta. rewrite Hw, Hk.
  destruct (root_set w); reflexivity.
Qed.

Lemma add_rule_unwritable (e : env) (w : world) (rule : Rule) :
  writable w = false -> truncate_keep w = None -> snd (add_rule e w rule) = w.
Proof.
  intros Hw Hk. unfold add_rule. destruct (negb (root_set w)); [reflexivity|]. cbv zeta.
  destruct (negb (truthy (r_name rule))); [reflexivity|].
  destruct (existsb _ _); [reflexivity|]. rewrite save_unwritable by assumption. reflexivity.
Qed.

Lemma extract_loop_unwritable (e : env) (names : list str) (rules : list Rule)
    (w : world) (k c : nat) :
  writable w = false -> truncate_keep w = None -> snd (extract_loop e names rules w k c) = w.
Proof.
  revert k c. induction rules as [|x rules IH]; intros k c Hw Hk; [reflexivity|].
  cbn [extract_loop].
  destruct (negb (truthy (r_name x))); [apply IH; assumption|].
  destruct (existsb _ _); [apply IH; assumption|].
  pose proof (add_rule_unwritable e w x Hw Hk) as Ha.
  destruct (add_rule e w x) as [[ok m] w']. cbn in Ha. subst w'. apply IH; assumption.
Qed.

(** [X10] When the save fails before the rules document is opened for
    writing ([os.makedirs] or [open(..., 'w')] raises), no operation
    changes the store: add, update, delete, the extract tool and startup
    all leave it as it was. *)
Theorem unwritable_store_unchanged (e : env) (w : world) (rule : Rule)
    (n rules_content : str) :
  writable w = false -> truncate_keep w = None ->
  snd (add_rule e w rule) = w /\ snd (update_rule e w rule) = w /\
  snd (delete_rule e w n) = w /\
  snd (mcp_auto_rules_extract_cursor_rules e w rules_content) = w /\
  main_startup e w = w.
Proof.
  intros Hw Hk. split; [apply add_rule_unwritable; assumption|]. split; [|split; [|split]].
  - unfold update_rule. destruct (negb (root_set w)); [reflexivity|]. cbv zeta.
    destruct (_ && _); [reflexivity|].
    destruct (update_in e rule (load_all_rules e w)); [|reflexivity].
    rewrite save_unwritable by assumption. reflexivity.
  - unfold delete_rule. destruct (negb (root_set w)); [reflexivity|]. cbv zeta.
    destruct (Nat.eqb _ _); [reflexivity|]. rewrite save_unwritable by assumption. reflexivity.
  - unfold mcp_auto_rules_extract_cursor_rules. cbv zeta.
    destruct (extract_rules_from_mdc e rules_content) as [|r rs]; [reflexivity|].
    pose proof (extract_loop_unwritable e
      (flat_map (fun r => if truthy (r_name r) then [get (r_name r)] else [])
         (load_all_rules e w)) (r :: rs) w 0 0 Hw Hk) as H.
    destruct (extract_loop _ _ _ _ _ _) as [[k c] w']. exact H.
  - unfold main_startup. cbv zeta. destruct (_ || _); [|reflexivity].
    rewrite save_unwritable by assumption. reflexivity.
Qed.

Lemma unwritable_store_unchanged_witness :
  snd (add_rule Samples.e0 (mk_world true None false None) Samples.rA)
  = mk_world true None false None /\
  snd (update_rule Samples.e0 (mk_world true None false None) Samples.rA)
  = mk_world true None false None /\
  snd (delete_rule Samples.e0 (mk_world true None false None) (lit "a"))
  = mk_world true None false None /\
  snd (mcp_auto_rules_extract_cursor_rules Samples.e0 (mk_world true None false None)
         (convert_rules_to_mdc [Samples.rA])) = mk_world true None false None /\
  main_startup Samples.e0 (mk_world true None false None) = mk_world true None false None.
Proof. apply unwritable_store_unchanged; reflexivity. Defined.



Lemma update_in_none (e : env) (rule : Rule) (L : list Rule) :
  forallb (fun r => negb (update_matches rule r)) L = true -> update_in e rule L = None.
Proof.
  induction L as [|x L IH]; intros H; [reflexivity|].
  cbn [forallb] in H. apply andb_true_iff in H as [H1 H2]. apply negb_true_iff in H1.
  cbn [update_in]. rewrite H1, IH by exact H2. reflexivity.
Qed.

(** [X11] [update_rule] fails, leaving the store as it was, when the
    request has neither a non-empty name nor a non-empty id (asking for
    one), and when it has one but no loaded record matches it (not found,
    under the name, else the id). *)
Theorem update_rule_errors (e : env) (w : world) (rule : Rule) :
  root_set w = true ->
  (truthy (r_name rule) = false -> truthy (r_id rule) = false ->
     update_rule e w rule = ((false, MsgNeedNameOrId), w)) /\
  ((truthy (r_name rule) || truthy (r_id rule)) = true ->
   forallb (fun r => negb (update_matches rule r)) (load_all_rules e w) = true ->
     update_rule e w rule
     = ((false, MsgNotFound (if truthy (r_name rule) then get (r_name rule)
                             else get (r_id rule))), w)).
Proof.
  intros Hr. split.
  - intros Hn Hi. unfold update_rule. rewrite Hr. cbn [negb]. cbv zeta.
    rewrite Hn, Hi. reflexivity.
  - intros Hni Hno. unfold update_rule. rewrite Hr. cbn [negb]. cbv zeta.
    assert (Hk : negb (truthy (r_name rule)) && negb (truthy (r_id rule)) = false)
      by (destruct (truthy (r_name rule)), (truthy (r_id rule)); cbn in *; congruence).
    rewrite Hk, update_in_none by exact Hno. reflexivity.
Qed.

Lemma update_rule_errors_witness :
  update_rule Samples.e0 Samples.wA (Samples.req (Some (lit "b")) None None)
  = ((false, MsgNotFound (lit "b")), Samples.wA).
Proof.
  apply (update_rule_errors Samples.e0 Samples.wA (Samples.req (Some (lit "b")) None None)
           eq_refl); vm_compute; reflexivity.
Defined.


Lemma split_hdr_none (b : bool) (s t : str) :
  hdr_free b (s ++ t) = true -> snd (split_hdr b s) = [].
Proof.
  revert b. induction s as [|c s IH]; intros b H; [reflexivity|].
  cbn [app hdr_free] in H. apply andb_true_iff in H as [H1 H2].
  cbn [split_hdr]. specialize (IH _ H2).
  destruct (split_hdr (c =? 10)%Z s) as [p ps]. cbn in IH. subst ps.
  destruct (b && starts_with hdr2 (c :: s)) eqn:E; [|reflexivity].
  apply andb_true_iff in E as [-> E].
  apply (starts_with_app _ _ t) in E. cbn [app] in E. rewrite E in H1. discriminate H1.
Qed.

(** [X12] A document none of whose lines starts with ["## "] holds no
    rule: [convert_mdc_to_rules] returns the empty list. *)
Theorem no_section_no_rules (e : env) (s : str) :
  forallb not_hdr_line (split_nl s) = true -> convert_mdc_to_rules e s = [].
Proof.
  intros H. apply hdr_free_lines, split_hdr_none in H.
  unfold convert_mdc_to_rules. destruct (is_nil (strip s)); [reflexivity|].
  unfold re_split_sections. destruct (split_hdr true s) as [p ps].
  cbn in H |- *. subst ps. reflexivity.
Qed.

Lemma no_section_no_rules_witness :
  convert_mdc_to_rules Samples.e0 (lit "# notes" ++ nl ++ lit "### x") = [].
Proof. apply no_section_no_rules. vm_compute. reflexivity. Defined.

(** [X13] Text before the first section is ignored: a preamble none of
    whose lines starts with ["## "], followed by a newline and the blocks
    [convert_rules_to_mdc] writes for well-formed rules, parses to records
    with the contents of those rules. *)
Theorem preamble_ignored (e : env) (pre : str) (rs : list Rule) :
  forallb not_hdr_line (split_nl pre) = true -> forallb rule_ok rs = true ->
  map content (convert_mdc_to_rules e (pre ++ nl ++ concat (map rule_block rs)))
  = map content rs.
Proof.
  intros Hpre Hok. pose proof (blocks_good rs Hok) as Hbs.
  unfold convert_mdc_to_rules.
  destruct (is_nil (strip (pre ++ nl ++ concat (map rule_block rs)))) eqn:Hs.
  - destruct rs as [|r rs]; [reflexivity|]. exfalso.
    inversion Hbs as [|? ? Hb]; subst. destruct Hb as (s' & Eb & _).
    rewrite (strip_nonempty 35%Z) in Hs; [discriminate Hs | reflexivity|].
    apply in_or_app. right. apply in_or_app. right. cbn [map concat].
    rewrite Eb. left. reflexivity.
  - unfold re_split_sections. rewrite app_assoc.
    rewrite (split_hdr_app true (pre ++ nl) _ (hdr_free_lines pre Hpre)).
    rewrite bol_after_nl, (split_hdr_blocks _ Hbs). cbn [tl].
    apply parse_blocks, Hok.
Qed.

Lemma preamble_ignored_witness :
  map content (convert_mdc_to_rules Samples.e0
    (lit "# notes" ++ nl ++ concat (map rule_block [Samples.rA; Samples.rule_foo])))
  = map content [Samples.rA; Samples.rule_foo].
Proof. apply preamble_ignored; vm_compute; reflexivity. Defined.

End Extra.
